(** * jupyterlab-web-llm-completer: the provider / worker protocol

    A shallow embedding of the two halves of the extension:

    - [Provider]: the class [WebLLMInlineProvider] (front end): [configure],
      [fetch], [stream] and the handlers of the messages of the worker;
    - [Worker]: the class [Worker] of the web worker: the registry of
      [CompletionModel]s, [_initializeModel], [_disposeModel], [_generate].

    Both run on a JavaScript event loop.  Each is modelled as a state
    record and a total [step] function over the events its loop can
    receive; what it does to the outside ([postMessage], notifications,
    the console, calls into the web-llm engine) is appended to logs kept
    in the state.  Objects that are shared by reference (promise
    delegates, model handles) live in a store indexed by address.

    Conventions on JavaScript data.
    - A string is a [string]; one character stands for one UTF-16 code
      unit, so [length] is [.length] and positions agree.
    - The counters [_currentGeneration] and [_tokenCounter] start at 0 and
      only ever grow by 1; they are [nat] (a JavaScript number is exact on
      such integers throughout the safe-integer range).  The cell of the
      [Int32Array] holds a 32-bit integer: [ToInt32] is written out.
    - The sampling parameters are only passed along: they are [option Q],
      [None] standing for [null] or [undefined].
    - [Record<string, _>] and [Map<string, _>] are [gmap string _]; the
      keys are model names of the catalogue (or ['none']) and tokens. *)

From Stdlib Require Import ZArith QArith DecimalString DecimalNat.
From stdpp Require Import base strings list gmap.

Local Open Scope string_scope.

(** ** JavaScript primitives used by the sources *)

Module Js.

(** [ToInt32]: what [Atomics.store] on an [Int32Array] keeps of a number. *)
Definition ToInt32 (z : Z) : Z := ((z + 2 ^ 31) mod 2 ^ 32 - 2 ^ 31)%Z.

(** [String(n)] for a non-negative integer. *)
Definition number_to_string (n : nat) : string :=
  NilZero.string_of_uint (Nat.to_uint n).

(** [s.substring(start)]. *)
Fixpoint substring (start : nat) (s : string) : string :=
  match start, s with
  | 0, _ => s
  | S _, EmptyString => EmptyString
  | S k, String _ r => substring k r
  end.

(** [s.slice(0, stop)] for [stop >= 0]. *)
Fixpoint slice_to (stop : nat) (s : string) : string :=
  match stop, s with
  | 0, _ => EmptyString
  | S _, EmptyString => EmptyString
  | S k, String c r => String c (slice_to k r)
  end.

(** [s.slice(-k)] for [0 <= k <= s.length]; [-0] is [0], so [k = 0]
    keeps the whole string. *)
Definition slice_last (k : nat) (s : string) : string :=
  match k with
  | 0 => s
  | S _ => substring (String.length s - k) s
  end.

(** A value that is either a string or [undefined]. *)
Inductive value := Undefined | Str (s : string).

Inductive TypeError := CannotReadProperties (of_what reading : string).

(** [v.substring(start)] as a method call on an arbitrary value. *)
Definition call_substring (v : value) (start : nat) : TypeError + string :=
  match v with
  | Undefined => inl (CannotReadProperties "undefined" "substring")
  | Str s => inr (substring start s)
  end.

(** [s.generated_text] on a string primitive: [String.prototype] has no
    such property. *)
Definition generated_text (s : string) : value := Undefined.

Definition type_error_message (e : TypeError) : string :=
  match e with
  | CannotReadProperties w r =>
      "Cannot read properties of " ++ w ++ " (reading '" ++ r ++ "')"
  end.

End Js.

(** ** The message contract (types.ts) *)

Definition number := Q.

Record IGenerate := {
  g_model : string;
  g_text : string;
  g_systemPrompt : string;
  g_temperature : option number;
  g_top_p : option number;
  g_generateN : nat;
  g_frequency_penalty : option number;
  g_presence_penalty : option number;
  g_max_gen_len : option number;
  g_idTokens : list string;
  g_counter : nat
}.

Inductive ClientMessage :=
| Configure
| InitializeBuffer
| InitializeModel (model : string)
| DisposeModel (model : string)
| Generate (data : IGenerate)
| UnknownAction (action : string).

Record InitProgressReport := {
  progress : number;
  timeElapsed : number;
  text : string
}.

(** [error?: { message }]: [None] when the field is missing or the message
    is [undefined]. *)
Inductive WorkerMessage :=
| WorkerStarted
| Initiate (model : string)
| Progress (model : string) (report : InitProgressReport)
| Done (model : string)
| Ready (model : string)
| Update (idToken output : string)
| Complete (idToken output : string)
| Interrupted (idTokens : list string) (error : option string)
| Exception (idTokens : option (list string)) (error : option string)
| UnknownStatus (status : string).

(** ** The provider (front end): class [WebLLMInlineProvider] *)

Module Provider.

Record ISettings := {
  codeModel : string;
  textModel : string;
  temperature : option number;
  top_p : option number;
  generateN : nat;
  max_gen_len : option number;
  frequency_penalty : option number;
  presence_penalty : option number;
  repetition_penalty : option number;
  maxContextWindow : nat
}.

Definition DEFAULT_SETTINGS : ISettings := {|
  codeModel := "none";
  textModel := "Llama-3-8B-Instruct-q4f32_1-1k";
  temperature := Some 0.5%Q;
  top_p := None;
  generateN := 2;
  max_gen_len := Some 512%Q;
  frequency_penalty := Some 0%Q;
  presence_penalty := Some 0%Q;
  repetition_penalty := Some 0%Q;
  maxContextWindow := 525
|}.

(** [CompletionHandler.IRequest], the fields [fetch] reads. *)
Record IRequest := {
  r_text : string;
  offset : nat;
  mimeType : option string
}.

Record IInlineCompletionItem := {
  insertText : string;
  isIncomplete : option bool;
  token : option string
}.

Record IStream := {
  done : bool;
  response : IInlineCompletionItem
}.

(** State of a [PromiseDelegate<IStream>]; [reject(null)] carries no
    reason worth keeping. *)
Inductive Settled := Pending | Resolved (v : IStream) | Rejected.

(** A [fetch] call suspended at [await this._ready[model].promise]: the
    locals its continuation still uses. *)
Record FetchCont := {
  k_model : string;
  k_isText : bool;
  k_request : IRequest
}.

(** State of a [PromiseDelegate<void>] of [_ready], with the [fetch]
    calls waiting on it.  [_msgInitiate] overwrites the entry of the
    model with a fresh delegate; the delegate it replaces is then
    referenced by its waiters only and can never be resolved, so dropping
    the waiters with the entry loses nothing observable. *)
Inductive ReadyState := ReadyResolved | ReadyPending (waiters : list FetchCont).

(** [_workerStarted]: resolved, or pending with the number of [configure]
    calls suspended on it (behind the [then] of the constructor). *)
Inductive StartState := Started | NotStarted (configures : nat).

Inductive ContentType := code | text.

(** Phase of one generator object made by [stream(token)]: not yet
    pulled, suspended at [yield promise] on the delegate at [addr], or
    finished (returned or thrown). *)
Inductive Phase := Fresh | AtYield (addr : nat) | Finished.

Inductive LoadNote :=
| Loading (model : string)
| LoadingProgress (model : string) (report : InitProgressReport)
| LoadedCompiling (model : string).

Inductive Effect :=
| NotificationEmit (id : nat) (note : LoadNote)
| NotificationUpdate (id : option nat) (note : LoadNote)
| NotificationDismiss (id : option nat)
| NotificationError (message : string)
| ConsoleWarn (message : string)
| ConsoleError (data : WorkerMessage)
| Uncaught (e : Js.TypeError).

Record State := {
  (* the private fields of the class *)
  _currentGeneration : nat;
  _currentModels : option string * option string;
  _loadingNotifications : gmap string nat;
  _ready : gmap string ReadyState;
  _settings : ISettings;
  _sharedArray : Z;
  _streamPromises : gmap string nat;
  _tokenCounter : nat;
  _workerStarted : StartState;
  (* the [PromiseDelegate<IStream>] objects ever made, by address *)
  delegates : list Settled;
  (* the generator objects ever made by [stream], by number *)
  generators : list (string * Phase);
  (* [options.worker.postMessage], oldest first *)
  posted : list ClientMessage;
  (* notifications and console, oldest first *)
  ui : list Effect;
  (* the item lists of the [fetch] calls that returned, oldest first *)
  returned : list (list IInlineCompletionItem)
}.

Definition initial : State := {|
  _currentGeneration := 0;
  _currentModels := (None, None);
  _loadingNotifications := ∅;
  _ready := ∅;
  _settings := DEFAULT_SETTINGS;
  _sharedArray := 0%Z;
  _streamPromises := ∅;
  _tokenCounter := 0;
  _workerStarted := NotStarted 0;
  delegates := [];
  generators := [];
  posted := [];
  ui := [];
  returned := []
|}.

Section Setters.
Variable c : State.

Definition set_currentGeneration (x : nat) : State :=
  {| _currentGeneration := x; _currentModels := _currentModels c;
     _loadingNotifications := _loadingNotifications c; _ready := _ready c;
     _settings := _settings c; _sharedArray := _sharedArray c;
     _streamPromises := _streamPromises c; _tokenCounter := _tokenCounter c;
     _workerStarted := _workerStarted c; delegates := delegates c;
     generators := generators c; posted := posted c; ui := ui c;
     returned := returned c |}.

Definition set_currentModels (x : option string * option string) : State :=
  {| _currentGeneration := _currentGeneration c; _currentModels := x;
     _loadingNotifications := _loadingNotifications c; _ready := _ready c;
     _settings := _settings c; _sharedArray := _sharedArray c;
     _streamPromises := _streamPromises c; _tokenCounter := _tokenCounter c;
     _workerStarted := _workerStarted c; delegates := delegates c;
     generators := generators c; posted := posted c; ui := ui c;
     returned := returned c |}.

Definition set_loadingNotifications (x : gmap string nat) : State :=
  {| _currentGeneration := _currentGeneration c; _currentModels := _currentModels c;
     _loadingNotifications := x; _ready := _ready c;
     _settings := _settings c; _sharedArray := _sharedArray c;
     _streamPromises := _streamPromises c; _tokenCounter := _tokenCounter c;
     _workerStarted := _workerStarted c; delegates := delegates c;
     generators := generators c; posted := posted c; ui := ui c;
     returned := returned c |}.

Definition set_ready (x : gmap string ReadyState) : State :=
  {| _currentGeneration := _currentGeneration c; _currentModels := _currentModels c;
     _loadingNotifications := _loadingNotifications c; _ready := x;
     _settings := _settings c; _sharedArray := _sharedArray c;
     _streamPromises := _streamPromises c; _tokenCounter := _tokenCounter c;
     _workerStarted := _workerStarted c; delegates := delegates c;
     generators := generators c; posted := posted c; ui := ui c;
     returned := returned c |}.

Definition set_settings (x : ISettings) : State :=
  {| _currentGeneration := _currentGeneration c; _currentModels := _currentModels c;
     _loadingNotifications := _loadingNotifications c; _ready := _ready c;
     _settings := x; _sharedArray := _sharedArray c;
     _streamPromises := _streamPromises c; _tokenCounter := _tokenCounter c;
     _workerStarted := _workerStarted c; delegates := delegates c;
     generators := generators c; posted := posted c; ui := ui c;
     returned := returned c |}.

Definition set_sharedArray (x : Z) : State :=
  {| _currentGeneration := _currentGeneration c; _currentModels := _currentModels c;
     _loadingNotifications := _loadingNotifications c; _ready := _ready c;
     _settings := _settings c; _sharedArray := x;
     _streamPromises := _streamPromises c; _tokenCounter := _tokenCounter c;
     _workerStarted := _workerStarted c; delegates := delegates c;
     generators := generators c; posted := posted c; ui := ui c;
     returned := returned c |}.

Definition set_streamPromises (x : gmap string nat) : State :=
  {| _currentGeneration := _currentGeneration c; _currentModels := _currentModels c;
     _loadingNotifications := _loadingNotifications c; _ready := _ready c;
     _settings := _settings c; _sharedArray := _sharedArray c;
     _streamPromises := x; _tokenCounter := _tokenCounter c;
     _workerStarted := _workerStarted c; delegates := delegates c;
     generators := generators c; posted := posted c; ui := ui c;
     returned := returned c |}.

Definition set_tokenCounter (x : nat) : State :=
  {| _currentGeneration := _currentGeneration c; _currentModels := _currentModels c;
     _loadingNotifications := _loadingNotifications c; _ready := _ready c;
     _settings := _settings c; _sharedArray := _sharedArray c;
     _streamPromises := _streamPromises c; _tokenCounter := x;
     _workerStarted := _workerStarted c; delegates := delegates c;
     generators := generators c; posted := posted c; ui := ui c;
     returned := returned c |}.

Definition set_workerStarted (x : StartState) : State :=
  {| _currentGeneration := _currentGeneration c; _currentModels := _currentModels c;
     _loadingNotifications := _loadingNotifications c; _ready := _ready c;
     _settings := _settings c; _sharedArray := _sharedArray c;
     _streamPromises := _streamPromises c; _tokenCounter := _tokenCounter c;
     _workerStarted := x; delegates := delegates c;
     generators := generators c; posted := posted c; ui := ui c;
     returned := returned c |}.

Definition set_delegates (x : list Settled) : State :=
  {| _currentGeneration := _currentGeneration c; _currentModels := _currentModels c;
     _loadingNotifications := _loadingNotifications c; _ready := _ready c;
     _settings := _settings c; _sharedArray := _sharedArray c;
     _streamPromises := _streamPromises c; _tokenCounter := _tokenCounter c;
     _workerStarted := _workerStarted c; delegates := x;
     generators := generators c; posted := posted c; ui := ui c;
     returned := returned c |}.

Definition set_generators (x : list (string * Phase)) : State :=
  {| _currentGeneration := _currentGeneration c; _currentModels := _currentModels c;
     _loadingNotifications := _loadingNotifications c; _ready := _ready c;
     _settings := _settings c; _sharedArray := _sharedArray c;
     _streamPromises := _streamPromises c; _tokenCounter := _tokenCounter c;
     _workerStarted := _workerStarted c; delegates := delegates c;
     generators := x; posted := posted c; ui := ui c;
     returned := returned c |}.

Definition set_posted (x : list ClientMessage) : State :=
  {| _currentGeneration := _currentGeneration c; _currentModels := _currentModels c;
     _loadingNotifications := _loadingNotifications c; _ready := _ready c;
     _settings := _settings c; _sharedArray := _sharedArray c;
     _streamPromises := _streamPromises c; _tokenCounter := _tokenCounter c;
     _workerStarted := _workerStarted c; delegates := delegates c;
     generators := generators c; posted := x; ui := ui c;
     returned := returned c |}.

Definition set_ui (x : list Effect) : State :=
  {| _currentGeneration := _currentGeneration c; _currentModels := _currentModels c;
     _loadingNotifications := _loadingNotifications c; _ready := _ready c;
     _settings := _settings c; _sharedArray := _sharedArray c;
     _streamPromises := _streamPromises c; _tokenCounter := _tokenCounter c;
     _workerStarted := _workerStarted c; delegates := delegates c;
     generators := generators c; posted := posted c; ui := x;
     returned := returned c |}.

Definition set_returned (x : list (list IInlineCompletionItem)) : State :=
  {| _currentGeneration := _currentGeneration c; _currentModels := _currentModels c;
     _loadingNotifications := _loadingNotifications c; _ready := _ready c;
     _settings := _settings c; _sharedArray := _sharedArray c;
     _streamPromises := _streamPromises c; _tokenCounter := _tokenCounter c;
     _workerStarted := _workerStarted c; delegates := delegates c;
     generators := generators c; posted := posted c; ui := ui c;
     returned := x |}.
End Setters.

(** *** Small helpers: logs and the delegate store *)

Definition _postMessage (m : ClientMessage) (c : State) : State :=
  set_posted c (posted c ++ [m]).

Definition log (e : Effect) (c : State) : State :=
  set_ui c (ui c ++ [e]).

(** [new PromiseDelegate<IStream>()]: the address of the new object. *)
Definition fresh_delegate (c : State) : nat := length (delegates c).

(** [delegate.resolve(v)] and [delegate.reject(null)]: a promise settles
    once; later calls do nothing. *)
Definition resolve (a : nat) (v : IStream) (store : list Settled) : list Settled :=
  match store !! a with
  | Some Pending => <[a := Resolved v]> store
  | _ => store
  end.

Definition reject (a : nat) (store : list Settled) : list Settled :=
  match store !! a with
  | Some Pending => <[a := Rejected]> store
  | _ => store
  end.

(** *** The methods of the class *)

(** [_tickWorker]: [Atomics.store(this._sharedArray, 0, this._currentGeneration)]
    (the [Atomics.notify] that follows wakes no one: the worker never
    waits). *)
Definition _tickWorker (c : State) : State :=
  set_sharedArray c (Js.ToInt32 (Z.of_nat (_currentGeneration c))).

Definition _abortPrevious (c : State) : State :=
  _tickWorker (set_currentGeneration c (S (_currentGeneration c))).

Definition _prefixFromRequest (c : State) (request : IRequest) : string :=
  let textBefore := Js.slice_to (offset request) (r_text request) in
  Js.slice_last
    (Nat.min (maxContextWindow (_settings c)) (String.length textBefore))
    textBefore.

Definition currentModel (c : State) (type : ContentType) : option string :=
  match type with
  | code => fst (_currentModels c)
  | text => snd (_currentModels c)
  end.

Definition set_currentModel (c : State) (type : ContentType) (m : string) : State :=
  match type with
  | code => set_currentModels c (Some m, snd (_currentModels c))
  | text => set_currentModels c (fst (_currentModels c), Some m)
  end.

(** [if (oldModel)]: a string is truthy unless it is empty. *)
Definition truthy (s : string) : bool := negb (String.eqb s "").

Definition _switchModel (newModel : string) (type : ContentType) (c : State) : State :=
  let oldModel := currentModel c type in
  if decide (oldModel = Some newModel) then c
  else
    let c := match oldModel with
             | Some old => if truthy old then _postMessage (DisposeModel old) c else c
             | None => c
             end in
    let c := if decide (newModel = "none") then c
             else _postMessage (InitializeModel newModel) c in
    set_currentModel c type newModel.

(** The rest of [configure] after [await this._workerStarted.promise]. *)
Definition configure_resume (c : State) : State :=
  let c := _switchModel (codeModel (_settings c)) code c in
  _switchModel (textModel (_settings c)) text c.

Definition configure (settings : ISettings) (c : State) : State :=
  let c := set_settings c settings in
  match _workerStarted c with
  | Started => configure_resume c
  | NotStarted n => set_workerStarted c (NotStarted (S n))
  end.

Definition textMimeTypes : list string :=
  [ "text/x-ipythongfm"; "text/x-markdown"; "text/plain";
    "text/x-rst"; "text/x-latex"; "text/x-rsrc" ].

(** [textMimeTypes.includes(request.mimeType!)]. *)
Definition isText (request : IRequest) : bool :=
  match mimeType request with
  | Some m => bool_decide (m ∈ textMimeTypes)
  | None => false
  end.

Definition placeholder (tok : string) : IInlineCompletionItem :=
  {| insertText := ""; isIncomplete := Some true; token := Some tok |}.

(** ['T' + counter]. *)
Definition tokenOf (counter : nat) : string := "T" ++ Js.number_to_string counter.

(** The [for] loop of [fetch], [n] iterations left:
    [const token = 'T' + ++this._tokenCounter], then the two [push]es. *)
Fixpoint mint (n counter : nat) (idTokens : list string)
    (items : list IInlineCompletionItem)
  : nat * list string * list IInlineCompletionItem :=
  match n with
  | 0 => (counter, idTokens, items)
  | S n' =>
      let counter := S counter in
      let tok := tokenOf counter in
      mint n' counter (idTokens ++ [tok]) (items ++ [placeholder tok])
  end.

Definition systemPromptFor (isText : bool) : string :=
  "You are a completion model generating " ++
  (if isText then "Markdown" else "code") ++ " suggestions".

(** The [generate] message of [fetch]; [max_gen_len] is not among the
    properties of the object literal. *)
Definition generateMessage (c : State) (k : FetchCont) (prefix : string)
    (idTokens : list string) : IGenerate :=
  {| g_model := k_model k;
     g_text := prefix;
     g_systemPrompt := systemPromptFor (k_isText k);
     g_temperature := temperature (_settings c);
     g_top_p := top_p (_settings c);
     g_generateN := generateN (_settings c);
     g_frequency_penalty := frequency_penalty (_settings c);
     g_presence_penalty := presence_penalty (_settings c);
     g_max_gen_len := None;
     g_idTokens := idTokens;
     g_counter := _currentGeneration c |}.

(** The rest of [fetch] after [await this._ready[model].promise]. *)
Definition fetch_resume (k : FetchCont) (c : State) : State :=
  let c := _abortPrevious c in
  let c := set_streamPromises c ∅ in
  let prefix := _prefixFromRequest c (k_request k) in
  let '(counter, idTokens, items) :=
    mint (generateN (_settings c)) (_tokenCounter c) [] [] in
  let c := set_tokenCounter c counter in
  let c := _postMessage (Generate (generateMessage c k prefix idTokens)) c in
  set_returned c (returned c ++ [items]).

(** What the caller of [fetch] gets at once: a rejected promise, a
    promise that is fulfilled in the same turn, or one that stays
    pending on the readiness of the model. *)
Inductive FetchOutcome :=
| Threw (e : Js.TypeError)
| Returned (items : list IInlineCompletionItem)
| Suspended.

(** [const model = isText ? this._settings.textModel : this._settings.codeModel]. *)
Definition selectedModel (c : State) (request : IRequest) : string :=
  if isText request then textModel (_settings c) else codeModel (_settings c).

Definition fetch (request : IRequest) (c : State) : State * FetchOutcome :=
  let model := selectedModel c request in
  let k := {| k_model := model; k_isText := isText request; k_request := request |} in
  match _ready c !! model with
  | None => (c, Threw (Js.CannotReadProperties "undefined" "promise"))
  | Some ReadyResolved =>
      let c' := fetch_resume k c in
      (c', Returned (default [] (last (returned c'))))
  | Some (ReadyPending waiters) =>
      (set_ready c (<[model := ReadyPending (waiters ++ [k])]> (_ready c)), Suspended)
  end.

(** [stream(token)] makes a generator object; nothing runs until the
    first pull. *)
Definition stream (tok : string) (c : State) : State :=
  set_generators c (generators c ++ [(tok, Fresh)]).

(** One turn of the loop of [stream]: a new delegate, registered in the
    map that [this._streamPromises] names at that moment, then
    [yield promise]. *)
Definition arm (g : nat) (tok : string) (c : State) : State :=
  let a := fresh_delegate c in
  let c := set_delegates c (delegates c ++ [Pending]) in
  let c := set_streamPromises c (<[tok := a]> (_streamPromises c)) in
  set_generators c (<[g := (tok, AtYield a)]> (generators c)).

(** The consumer calls [next()] on generator [g].  Consumers pull one
    result at a time ([for await]): a pull while the previous one is
    still pending is left out. *)
Definition next (g : nat) (c : State) : State :=
  match generators c !! g with
  | Some (tok, Fresh) => arm g tok c
  | Some (tok, AtYield a) =>
      match delegates c !! a with
      | Some (Resolved v) =>
          if done v then set_generators c (<[g := (tok, Finished)]> (generators c))
          else arm g tok c
      | Some Rejected => set_generators c (<[g := (tok, Finished)]> (generators c))
      | _ => c
      end
  | _ => c
  end.

(** What the consumer of generator [g] has in hand for its latest pull. *)
Inductive Observation :=
| NotPulled
| PullPending
| Yielded (v : IStream)
| PullRejected
| Ended.

Definition observe (c : State) (g : nat) : option Observation :=
  match generators c !! g with
  | Some (_, Fresh) => Some NotPulled
  | Some (_, AtYield a) =>
      match delegates c !! a with
      | Some Pending => Some PullPending
      | Some (Resolved v) => Some (Yielded v)
      | Some Rejected => Some PullRejected
      | None => None
      end
  | Some (_, Finished) => Some Ended
  | None => None
  end.

(** *** The handlers of the messages of the worker *)

(** [this._workerStarted.resolve(undefined)]: the [then] of the
    constructor posts [initializeBuffer], then the suspended [configure]
    calls resume in order. *)
Definition _msgWorkerStarted (c : State) : State :=
  match _workerStarted c with
  | Started => c
  | NotStarted n =>
      let c := set_workerStarted c Started in
      let c := _postMessage InitializeBuffer c in
      Nat.iter n configure_resume c
  end.

Definition _msgInitiate (model : string) (c : State) : State :=
  let c := set_ready c (<[model := ReadyPending []]> (_ready c)) in
  match _loadingNotifications c !! model with
  | Some id => log (NotificationUpdate (Some id) (Loading model)) c
  | None =>
      let id := length (ui c) in
      let c := log (NotificationEmit id (Loading model)) c in
      set_loadingNotifications c (<[model := id]> (_loadingNotifications c))
  end.

Definition _msgProgress (model : string) (report : InitProgressReport) (c : State) : State :=
  log (NotificationUpdate (_loadingNotifications c !! model)
         (LoadingProgress model report)) c.

Definition _msgDone (model : string) (c : State) : State :=
  log (NotificationUpdate (_loadingNotifications c !! model)
         (LoadedCompiling model)) c.

(** [this._ready[data.model].resolve(void 0)]: the [fetch] calls waiting
    on the delegate resume in order. *)
Definition _msgReady (model : string) (c : State) : State :=
  let c := log (NotificationDismiss (_loadingNotifications c !! model)) c in
  match _ready c !! model with
  | None => log (Uncaught (Js.CannotReadProperties "undefined" "resolve")) c
  | Some ReadyResolved => c
  | Some (ReadyPending waiters) =>
      let c := set_ready c (<[model := ReadyResolved]> (_ready c)) in
      fold_left (fun c k => fetch_resume k c) waiters c
  end.

Definition _msgUpdate (idToken output : string) (c : State) : State :=
  let c := _tickWorker c in
  match _streamPromises c !! idToken with
  | None => log (ConsoleWarn "Completion updated but stream absent") c
  | Some a =>
      set_delegates c
        (resolve a {| done := false;
                      response := {| insertText := output;
                                     isIncomplete := None; token := None |} |}
           (delegates c))
  end.

Definition _msgComplete (idToken output : string) (c : State) : State :=
  let c :=
    match _streamPromises c !! idToken with
    | None => log (ConsoleWarn "Completion done but stream absent") c
    | Some a =>
        set_delegates c
          (resolve a {| done := true;
                        response := {| insertText := output;
                                       isIncomplete := None; token := None |} |}
             (delegates c))
    end in
  set_streamPromises c (delete idToken (_streamPromises c)).

(** The body of the [for] loop of [_msgInterrupted]. *)
Definition interrupt_one (c : State) (tok : string) : State :=
  let c :=
    match _streamPromises c !! tok with
    | Some a => set_delegates c (reject a (delegates c))
    | None => c
    end in
  set_streamPromises c (delete tok (_streamPromises c)).

Definition _msgInterrupted (idTokens : list string) (c : State) : State :=
  fold_left interrupt_one idTokens c.

(** [`Worker error: ${data.error?.message}`]. *)
Definition workerErrorText (error : option string) : string :=
  "Worker error: " ++ default "undefined" error.

Definition _msgException (data : WorkerMessage) (error : option string) (c : State) : State :=
  let c := log (NotificationError (workerErrorText error)) c in
  log (ConsoleError data) c.

Definition _onMessageReceived (data : WorkerMessage) (c : State) : State :=
  match data with
  | WorkerStarted => _msgWorkerStarted c
  | Initiate model => _msgInitiate model c
  | Progress model report => _msgProgress model report c
  | Done model => _msgDone model c
  | Ready model => _msgReady model c
  | Update idToken output => _msgUpdate idToken output c
  | Complete idToken output => _msgComplete idToken output c
  | Interrupted idTokens _ => _msgInterrupted idTokens c
  | Exception _ error => _msgException data error c
  | UnknownStatus _ => log (ConsoleWarn "Unhandled message from worker:") c
  end.

(** *** The event loop of the front end *)

Inductive Event :=
| Receive (data : WorkerMessage)
| CallConfigure (settings : ISettings)
| CallFetch (request : IRequest)
| CallStream (tok : string)
| CallNext (g : nat).

Definition step (c : State) (e : Event) : State :=
  match e with
  | Receive data => _onMessageReceived data c
  | CallConfigure settings => configure settings c
  | CallFetch request => fst (fetch request c)
  | CallStream tok => stream tok c
  | CallNext g => next g c
  end.

Definition run (c : State) (events : list Event) : State :=
  fold_left step events c.

(** The [generate] messages posted so far, and the tokens they carry. *)
Definition generated (c : State) : list IGenerate :=
  omap (fun m => match m with Generate d => Some d | _ => None end) (posted c).

Definition minted (c : State) : list string :=
  concat (map g_idTokens (generated c)).

End Provider.

(** ** The web worker: classes [Worker] and [CompletionModel] *)

Module Worker.

Inductive Role := system | user.

Record ChatCompletionRequest := {
  stream : bool;
  messages : list (Role * string);
  n : nat;
  temperature : option number;
  frequency_penalty : option number;
  presence_penalty : option number;
  max_gen_len : option number;
  top_p : option number
}.

(** A thrown value: an [Error] with its message, or something else, given
    by its [JSON.stringify]. *)
Inductive Thrown := ErrorObject (message : string) | NotAnError (json : string).

(** [e instanceof Error ? e.message : JSON.stringify(e)]. *)
Definition describe (e : Thrown) : string :=
  match e with
  | ErrorObject m => m
  | NotAnError j => j
  end.

(** [(e as Error).message]. *)
Definition message_of (e : Thrown) : option string :=
  match e with
  | ErrorObject m => Some m
  | NotAnError _ => None
  end.

(** What waits on the promise [_instance] of a [CompletionModel]. *)
Inductive Reaction :=
| PostDone                          (* [.then] of [_initializeModel] *)
| PostException                     (* [.catch] of [handleMessage] *)
| ResumeGenerate (data : IGenerate) (* [await model.instance] of [_generate] *)
| ResumeDispose.                    (* [await this._instance] of [dispose] *)

Inductive Instance :=
| Loading (reactions : list Reaction)
| Loaded
| Failed (e : Thrown).

Record CompletionModel := {
  model : string;
  _instance : Instance
}.

(** A [_generate] call past the load of its model: waiting for
    [engine.chat.completions.create(request)], or for the next chunk of
    the stream, with the array [output]. *)
Inductive Task :=
| Creating (data : IGenerate) (h : nat) (output : list string)
| Streaming (data : IGenerate) (h : nat) (output : list string)
| Over.

Inductive EngineCall :=
| CreateEngine (model : string)
| ChatCompletionsCreate (h : nat) (request : ChatCompletionRequest)
| InterruptGenerate (h : nat)
| ResetChat (h : nat)
| Unload (h : nat).

Inductive ConsoleLine :=
| ConsoleLog (message : string)
| ConsoleLogRequest (request : ChatCompletionRequest)
| ConsoleLogChunk (choices : list (option string))
| ConsoleLogProgress (report : InitProgressReport)
| ConsoleError (message : string)
| UnhandledRejection (message : string).

Record State := {
  (* the private fields of the class: [_sharedArray] is [null] ([false])
     or a view on the shared buffer, whose element 0 is [cell] *)
  _sharedArray : bool;
  _completionModels : gmap string nat;
  (* the shared memory *)
  cell : Z;
  (* the [CompletionModel] objects ever made, by address *)
  models : list CompletionModel;
  (* the [_generate] calls that reached the engine, by number *)
  tasks : list Task;
  (* [self.postMessage], oldest first *)
  posted : list WorkerMessage;
  (* calls into web-llm, oldest first *)
  engine : list EngineCall;
  console : list ConsoleLine
}.

(** The module posts [worker-started] when it is loaded. *)
Definition initial : State := {|
  _sharedArray := false;
  _completionModels := ∅;
  cell := 0%Z;
  models := [];
  tasks := [];
  posted := [WorkerStarted];
  engine := [];
  console := []
|}.

Section Setters.
Variable w : State.

Definition set_sharedArray (x : bool) : State :=
  {| _sharedArray := x; _completionModels := _completionModels w; cell := cell w;
     models := models w; tasks := tasks w; posted := posted w;
     engine := engine w; console := console w |}.

Definition set_completionModels (x : gmap string nat) : State :=
  {| _sharedArray := _sharedArray w; _completionModels := x; cell := cell w;
     models := models w; tasks := tasks w; posted := posted w;
     engine := engine w; console := console w |}.

Definition set_cell (x : Z) : State :=
  {| _sharedArray := _sharedArray w; _completionModels := _completionModels w; cell := x;
     models := models w; tasks := tasks w; posted := posted w;
     engine := engine w; console := console w |}.

Definition set_models (x : list CompletionModel) : State :=
  {| _sharedArray := _sharedArray w; _completionModels := _completionModels w; cell := cell w;
     models := x; tasks := tasks w; posted := posted w;
     engine := engine w; console := console w |}.

Definition set_tasks (x : list Task) : State :=
  {| _sharedArray := _sharedArray w; _completionModels := _completionModels w; cell := cell w;
     models := models w; tasks := x; posted := posted w;
     engine := engine w; console := console w |}.

Definition set_posted (x : list WorkerMessage) : State :=
  {| _sharedArray := _sharedArray w; _completionModels := _completionModels w; cell := cell w;
     models := models w; tasks := tasks w; posted := x;
     engine := engine w; console := console w |}.

Definition set_engine (x : list EngineCall) : State :=
  {| _sharedArray := _sharedArray w; _completionModels := _completionModels w; cell := cell w;
     models := models w; tasks := tasks w; posted := posted w;
     engine := x; console := console w |}.

Definition set_console (x : list ConsoleLine) : State :=
  {| _sharedArray := _sharedArray w; _completionModels := _completionModels w; cell := cell w;
     models := models w; tasks := tasks w; posted := posted w;
     engine := engine w; console := x |}.
End Setters.

Definition postMessage (m : WorkerMessage) (w : State) : State :=
  set_posted w (posted w ++ [m]).

Definition call (e : EngineCall) (w : State) : State :=
  set_engine w (engine w ++ [e]).

Definition print (l : ConsoleLine) (w : State) : State :=
  set_console w (console w ++ [l]).

Definition set_task (t : nat) (k : Task) (w : State) : State :=
  set_tasks w (<[t := k]> (tasks w)).

(** *** [_generate], after the engine is there *)

Definition pirate : string :=
  "You are a pirate chatbot who always responds in pirate speak!".

Definition requestOf (data : IGenerate) : ChatCompletionRequest :=
  {| stream := true;
     messages := [ (system, pirate); (user, g_text data) ];
     n := length (g_idTokens data);
     temperature := g_temperature data;
     frequency_penalty := g_frequency_penalty data;
     presence_penalty := g_presence_penalty data;
     max_gen_len := g_max_gen_len data;
     top_p := g_top_p data |}.

(** [if (chunk.choices[i].delta.content)]: [undefined] and the empty
    string are falsy. *)
Definition grow (content : option string) (o : string) : string :=
  match content with
  | Some s => if String.eqb s "" then o else o ++ s
  | None => o
  end.

(** [idTokens[i]] and [output[i]]; the two arrays have the same length
    and [i] stays below it. *)
Definition at_index (l : list string) (i : nat) : string := default "" (l !! i).

(** The inner [for] loop over the candidates for one chunk, [remaining]
    iterations left from index [i]; it stops with a [TypeError] where
    [chunk.choices[i]] is [undefined]. *)
Fixpoint fan_out (data : IGenerate) (choices : list (option string))
    (remaining i : nat) (output : list string) (w : State)
  : State * list string * option Js.TypeError :=
  match remaining with
  | 0 => (w, output, None)
  | S r =>
      match choices !! i with
      | None => (w, output, Some (Js.CannotReadProperties "undefined" "delta"))
      | Some content =>
          let output := alter (grow content) i output in
          let w := postMessage
                     (Update (at_index (g_idTokens data) i)
                        (Js.substring (String.length (g_text data)) (at_index output i))) w in
          fan_out data choices r (S i) output w
      end
  end.

(** The last loop of [_generate]:
    [output[i].generated_text.substring(text.length)]. *)
Fixpoint complete_loop (data : IGenerate) (i : nat) (rest : list string) (w : State)
  : State * option Js.TypeError :=
  match rest with
  | [] => (w, None)
  | o :: rest' =>
      match Js.call_substring (Js.generated_text o) (String.length (g_text data)) with
      | inl e => (w, Some e)
      | inr s =>
          complete_loop data (S i) rest'
            (postMessage (Complete (at_index (g_idTokens data) i) s) w)
      end
  end.

(** The end of [_generate] for task [t]: the last loop; an error it
    throws rejects the promise of [_generate], which nobody handles. *)
Definition finish (t : nat) (data : IGenerate) (output : list string) (w : State) : State :=
  let w := set_task t Over w in
  match complete_loop data 0 output w with
  | (w, None) => w
  | (w, Some e) => print (UnhandledRejection (Js.type_error_message e)) w
  end.

Definition interruption : string := "Execution interrupted".

(** The [catch] block of [_generate]; control then falls through to the
    last loop. *)
Definition on_catch (data : IGenerate) (message : option string) (w : State) : State :=
  if decide (message = Some interruption)
  then postMessage (Interrupted (g_idTokens data) message) w
  else postMessage (Exception (Some (g_idTokens data)) message) w.

(** [generationCounter !== startCounter]. *)
Definition superseded (data : IGenerate) (w : State) : bool :=
  negb (cell w =? Z.of_nat (g_counter data))%Z.

(** The part of [_generate] between [await model.instance] and the call
    of [engine.chat.completions.create], with the engine of handle [h]. *)
Definition generate_resume (data : IGenerate) (h : nat) (w : State) : State :=
  if superseded data w
  then print (ConsoleLog "Skipping generation because new request was sent since") w
  else
    let request := requestOf data in
    let w := print (ConsoleLogRequest request) w in
    let output := replicate (length (g_idTokens data)) "" in
    let w := call (ChatCompletionsCreate h request) w in
    set_tasks w (tasks w ++ [Creating data h output]).

(** One chunk of the [for await] loop. *)
Definition on_chunk (t : nat) (data : IGenerate) (h : nat) (output : list string)
    (choices : list (option string)) (w : State) : State :=
  if superseded data w
  then
    let w := call (InterruptGenerate h) w in
    finish t data output (on_catch data (Some interruption) w)
  else
    let w := print (ConsoleLogChunk choices) w in
    match fan_out data choices (length (g_idTokens data)) 0 output w with
    | (w, output, None) => set_task t (Streaming data h output) w
    | (w, output, Some e) =>
        finish t data output (on_catch data (Some (Js.type_error_message e)) w)
    end.

(** *** The registry *)

Definition handleOf (w : State) (h : nat) : option CompletionModel := models w !! h.

Definition set_instance (h : nat) (i : Instance) (w : State) : State :=
  set_models w (alter (fun m => {| model := model m; _instance := i |}) h (models w)).

(** A reaction runs with the outcome of the load of handle [h]. *)
Definition react_loaded (h : nat) (name : string) (r : Reaction) (w : State) : State :=
  match r with
  | PostDone => postMessage (Done name) w
  | PostException => w
  | ResumeGenerate data => generate_resume data h w
  | ResumeDispose => call (Unload h) (call (ResetChat h) w)
  end.

Definition react_failed (e : Thrown) (r : Reaction) (w : State) : State :=
  match r with
  | PostDone => print (UnhandledRejection (describe e)) w
  | PostException => postMessage (Exception None (Some (describe e))) w
  | ResumeGenerate _ => postMessage (Exception None (Some (describe e))) w
  | ResumeDispose => print (UnhandledRejection (describe e)) w
  end.

(** [model.instance.then(..)], [.catch(..)] or [await model.instance]:
    the reaction waits while the load is pending and runs at once
    otherwise. *)
Definition attach (h : nat) (r : Reaction) (w : State) : State :=
  match handleOf w h with
  | Some m =>
      match _instance m with
      | Loading rs => set_instance h (Loading (rs ++ [r])) w
      | Loaded => react_loaded h (model m) r w
      | Failed e => react_failed e r w
      end
  | None => w
  end.

Definition _initializeModel (name : string) (w : State) : State * nat :=
  match _completionModels w !! name with
  | Some h => (w, h)
  | None =>
      let w := postMessage (Initiate name) w in
      let h := length (models w) in
      let w := call (CreateEngine name) w in
      let w := set_models w (models w ++ [ {| model := name; _instance := Loading [PostDone] |} ]) in
      (set_completionModels w (<[name := h]> (_completionModels w)), h)
  end.

Definition _disposeModel (name : string) (w : State) : State :=
  match _completionModels w !! name with
  | None => w
  | Some h =>
      let w := set_completionModels w (delete name (_completionModels w)) in
      attach h ResumeDispose w
  end.

Definition _generate (data : IGenerate) (w : State) : State :=
  if _sharedArray w
  then
    let '(w, h) := _initializeModel (g_model data) w in
    attach h (ResumeGenerate data) w
  else
    print (UnhandledRejection
             "Cannot generate before `initializeBuffer` message got processed") w.

Definition handleMessage (m : ClientMessage) (w : State) : State :=
  match m with
  | Generate data => _generate data w
  | Configure => w
  | InitializeBuffer => set_sharedArray w true
  | InitializeModel name =>
      let '(w, h) := _initializeModel name w in
      attach h PostException w
  | DisposeModel name => _disposeModel name w
  | UnknownAction _ => print (ConsoleError "Unhandled message") w
  end.

(** *** The event loop of the worker *)

Inductive Event :=
| Message (m : ClientMessage)
(* the front end stores [v] in the shared cell *)
| Store (v : Z)
(* web-llm reports on the load of handle [h], or settles it
   ([None]: the engine is there) *)
| LoadProgress (h : nat) (report : InitProgressReport)
| LoadSettled (h : nat) (failure : option Thrown)
(* the promise of [create] of task [t] settles *)
| CreateSettled (t : nat) (failure : option Thrown)
(* the stream of task [t] yields a chunk, ends, or throws *)
| Chunk (t : nat) (choices : list (option string))
| StreamEnd (t : nat)
| StreamThrow (t : nat) (e : Thrown).

Definition on_progress (h : nat) (report : InitProgressReport) (w : State) : State :=
  match handleOf w h with
  | Some m =>
      postMessage (Progress (model m) report) (print (ConsoleLogProgress report) w)
  | None => w
  end.

(** A promise settles once; its reactions run in the order they were
    registered. *)
Definition on_settled (h : nat) (failure : option Thrown) (w : State) : State :=
  match handleOf w h with
  | Some m =>
      match _instance m, failure with
      | Loading rs, None =>
          fold_left (fun w r => react_loaded h (model m) r w) rs (set_instance h Loaded w)
      | Loading rs, Some e =>
          fold_left (fun w r => react_failed e r w) rs (set_instance h (Failed e) w)
      | _, _ => w
      end
  | None => w
  end.

Definition step (w : State) (e : Event) : State :=
  match e with
  | Message m => handleMessage m w
  | Store v => set_cell w v
  | LoadProgress h report => on_progress h report w
  | LoadSettled h failure => on_settled h failure w
  | CreateSettled t failure =>
      match tasks w !! t, failure with
      | Some (Creating data h output), None => set_task t (Streaming data h output) w
      | Some (Creating data h output), Some e =>
          finish t data output (on_catch data (message_of e) w)
      | _, _ => w
      end
  | Chunk t choices =>
      match tasks w !! t with
      | Some (Streaming data h output) => on_chunk t data h output choices w
      | _ => w
      end
  | StreamEnd t =>
      match tasks w !! t with
      | Some (Streaming data h output) => finish t data output w
      | _ => w
      end
  | StreamThrow t e =>
      match tasks w !! t with
      | Some (Streaming data h output) =>
          finish t data output (on_catch data (message_of e) w)
      | _ => w
      end
  end.

Definition run (w : State) (events : list Event) : State :=
  fold_left step events w.

End Worker.

(** ** Concrete runs used as examples *)

Module Scenario.

Definition llama : string := "Llama-3-8B-Instruct-q4f32_1-1k".

(** A completion request in a Markdown cell, cursor at the end. *)
Definition markdown : Provider.IRequest :=
  {| Provider.r_text := "# Plan";
     Provider.offset := 6;
     Provider.mimeType := Some "text/x-markdown" |}.


(** The provider once the worker has started and reported the text
    model as ready. *)
Definition ready_provider : Provider.State :=
  Provider.run Provider.initial
    [ Provider.Receive WorkerStarted;
      Provider.Receive (Initiate llama);
      Provider.Receive (Done llama);
      Provider.Receive (Ready llama) ].

(** A first [fetch] (tokens T1 and T2), then the consumer pulls
    [stream('T1')]: generator 0 waits on delegate 0. *)
Definition pulling : Provider.State :=
  Provider.run ready_provider
    [ Provider.CallFetch markdown;
      Provider.CallStream "T1";
      Provider.CallNext 0 ].

(** The [generate] message of that first [fetch]. *)
Definition request : IGenerate :=
  {| g_model := llama;
     g_text := "# Plan";
     g_systemPrompt := "You are a completion model generating Markdown suggestions";
     g_temperature := Some 0.5%Q;
     g_top_p := None;
     g_generateN := 2;
     g_frequency_penalty := Some 0%Q;
     g_presence_penalty := Some 0%Q;
     g_max_gen_len := None;
     g_idTokens := ["T1"; "T2"];
     g_counter := 1 |}.

(** The worker with the shared buffer bound and the epoch 1 stored. *)
Definition bound_worker : Worker.State :=
  Worker.run Worker.initial [ Worker.Message InitializeBuffer; Worker.Store 1 ].

(** The worker streaming for [request]: the model is loaded and
    [create] has returned the stream. *)
Definition streaming : Worker.State :=
  Worker.run bound_worker
    [ Worker.Message (InitializeModel llama);
      Worker.Message (Generate request);
      Worker.LoadSettled 0 None;
      Worker.CreateSettled 0 None ].

End Scenario.

Local Open Scope list_scope.

(** ** Views of the states used to state the properties *)

Module ProviderViews.
Import Provider.

Definition itemTokens (items : list IInlineCompletionItem) : list string :=
  omap token items.

(** The fields that only [fetch] writes. *)
Definition books (c : State) :=
  (_currentGeneration c, _tokenCounter c, returned c, generated c).

(** [c'] comes from [c] without running the body of a [fetch]: the
    books are the same, and the shared cell was either left alone or
    stored again from the unchanged epoch. *)
Definition quiet (c c' : State) : Prop :=
  books c' = books c /\
  (_sharedArray c' = _sharedArray c \/
   _sharedArray c' = Js.ToInt32 (Z.of_nat (_currentGeneration c))).

Definition resumes (ks : list FetchCont) (c : State) : State :=
  fold_left (fun c k => fetch_resume k c) ks c.


Definition token_inv (c : State) : Prop :=
  minted c = map tokenOf (seq 1 (_tokenCounter c)) /\
  concat (map itemTokens (returned c)) = minted c.

(** What decides which model a [fetch] waits for, and whether it waits. *)
Definition conf (c : State) := (_ready c, _settings c).

(** What [stream] and the handlers of [update], [complete] and
    [interrupted] work on. *)
Definition pulls (c : State) := (_streamPromises c, delegates c, generators c).

(** The ways a turn of the event loop changes the map of delegates and
    the store: settle a pending delegate that the map holds, drop
    entries of the map, or register a new pending delegate. *)
Inductive touch : gmap string nat * list Settled -> gmap string nat * list Settled -> Prop :=
| touch_refl x : touch x x
| touch_settle m ds tok a s :
    m !! tok = Some a -> ds !! a = Some Pending -> s <> Pending ->
    touch (m, ds) (m, <[a := s]> ds)
| touch_forget m m' ds : m' ⊆ m -> touch (m, ds) (m', ds)
| touch_arm m ds tok : touch (m, ds) (<[tok := length ds]> m, ds ++ [Pending])
| touch_trans x y z : touch x y -> touch y z -> touch x z.

Definition held (c : State) := (_streamPromises c, delegates c).

(** A delegate that the map does not hold is out of reach for good. *)
Definition unheld (d : nat) (x : gmap string nat * list Settled) : Prop :=
  d < length x.2 /\ forall tok a, x.1 !! tok = Some a -> a <> d.

(** After a rejected pull the generator is over: it can only move on to
    [Finished], and stays there. *)
Definition over (tok : string) (d g : nat) (c : State) : Prop :=
  generators c !! g = Some (tok, AtYield d) \/
  generators c !! g = Some (tok, Finished).

Definition stale : IStream :=
  {| done := false;
     response := {| insertText := "stale"; isIncomplete := None; token := None |} |}.

End ProviderViews.

Module WorkerViews.
Import Worker.

(** How many of the reactions post an [exception] when the load fails:
    the [catch] of [handleMessage] and the [catch] of [_generate]. *)
Fixpoint catches (rs : list Reaction) : nat :=
  match rs with
  | [] => 0
  | (PostException | ResumeGenerate _) :: rs => S (catches rs)
  | _ :: rs => catches rs
  end.

(** [w'] has posted what [w] had, and then no [ready]. *)
Definition adds_no_ready (w w' : State) : Prop :=
  exists ms, posted w' = posted w ++ ms /\ forall m, Ready m ∉ ms.

(** The worker after [S k] messages [initializeModel] for [name]: one
    handle, one call of [CreateEngine], one [initiate]; each message has
    left its [catch] on the promise of the handle. *)
Definition initialized (name : string) (k : nat) : State :=
  {| _sharedArray := false;
     _completionModels := <[name := 0]> ∅;
     cell := 0%Z;
     models := [ {| model := name;
                    _instance := Loading (PostDone :: replicate (S k) PostException) |} ];
     tasks := [];
     posted := [WorkerStarted; Initiate name];
     engine := [CreateEngine name];
     console := [] |}.

Definition no_webgpu : Thrown := ErrorObject "WebGPU is not supported".

End WorkerViews.

(** ** Further views and examples *)

Module ProviderShapes.
Import Provider.

(** The messages that [_switchModel] and [fetch] post; ['none'] is never
    initialized. *)
Definition routine (m : ClientMessage) : Prop :=
  match m with
  | DisposeModel _ | Generate _ => True
  | InitializeModel name => name <> "none"
  | _ => False
  end.

Definition is_generate (m : ClientMessage) : Prop :=
  match m with
  | Generate _ => True
  | _ => False
  end.

(** The outbox of the provider: before the worker has started, only
    [generate] messages; afterwards one [initializeBuffer], with only
    [generate] messages before it and routine messages after it. *)
Definition outbox_shape (c : State) : Prop :=
  match _workerStarted c with
  | NotStarted _ => Forall is_generate (posted c)
  | Started =>
      exists before after,
        posted c = before ++ InitializeBuffer :: after /\
        Forall is_generate before /\ Forall routine after
  end.

(** The connection to the worker as the provider sees it. *)
Definition wire (c : State) := (_workerStarted c, posted c).

(** [c'] has the map of delegates of [c] or less, as many delegates, and
    the same generators. *)
Definition shrinks (c c' : State) : Prop :=
  _streamPromises c' ⊆ _streamPromises c /\
  length (delegates c') = length (delegates c) /\
  generators c' = generators c.

(** Addresses in the map and in the generators are those of delegates
    that exist, and a delegate that the map holds for a token was made by
    a stream of that token. *)
Definition pulls_wf (c : State) : Prop :=
  (forall tok a, _streamPromises c !! tok = Some a -> a < length (delegates c)) /\
  (forall g tk a, generators c !! g = Some (tk, AtYield a) -> a < length (delegates c)) /\
  (forall tok a g tk,
     _streamPromises c !! tok = Some a ->
     generators c !! g = Some (tk, AtYield a) -> tk = tok).

(** A notification is emitted for the load of model [m]. *)
Definition emits_for (m : string) (e : Effect) : bool :=
  match e with
  | NotificationEmit _ (Loading m') => String.eqb m m'
  | _ => false
  end.

Definition emitted (m : string) (c : State) : nat :=
  length (filter (fun e => emits_for m e = true) (ui c)).

(** One notification per model that has an entry in
    [_loadingNotifications], none for the others. *)
Definition notes_inv (c : State) : Prop :=
  forall m, emitted m c = match _loadingNotifications c !! m with Some _ => 1 | None => 0 end.

(** What [_msgInitiate] alone changes, and the log it writes to. *)
Definition notes (c : State) := (_loadingNotifications c, ui c).

(** [c'] has the notification ids of [c] and has logged nothing that
    emits a notification. *)
Definition silent (c c' : State) : Prop :=
  _loadingNotifications c' = _loadingNotifications c /\
  exists es, ui c' = ui c ++ es /\ Forall (fun e => forall m, emits_for m e = false) es.


Definition chunk_of (is_done : bool) (output : string) : IStream :=
  {| done := is_done;
     response := {| insertText := output; isIncomplete := None; token := None |} |}.

End ProviderShapes.

Module WorkerShapes.
Import Worker.

(** Reactions, calls and messages that belong to a generation. *)
Definition no_generate (r : Reaction) : Prop :=
  match r with
  | ResumeGenerate _ => False
  | _ => True
  end.

Definition calm (m : CompletionModel) : Prop :=
  match _instance m with
  | Loading rs => Forall no_generate rs
  | _ => True
  end.

Definition no_chat (c : EngineCall) : Prop :=
  match c with
  | ChatCompletionsCreate _ _ | InterruptGenerate _ => False
  | _ => True
  end.

Definition no_output (m : WorkerMessage) : Prop :=
  match m with
  | Update _ _ | Complete _ _ | Interrupted _ _ | Exception (Some _) _ => False
  | _ => True
  end.

(** The worker while no [initializeBuffer] message has been handled. *)
Definition unbound (w : State) : Prop :=
  _sharedArray w = false /\
  tasks w = [] /\
  Forall calm (models w) /\
  Forall no_chat (engine w) /\
  Forall no_output (posted w).

(** The [update] message of candidate [j] for the outputs [output]. *)
Definition updateOf (data : IGenerate) (output : list string) (j : nat) : WorkerMessage :=
  Update (at_index (g_idTokens data) j)
    (Js.substring (String.length (g_text data)) (at_index output j)).

End WorkerShapes.

Module Examples.

(** The worker with one model whose load has failed. *)
Definition failed_worker : Worker.State :=
  Worker.run Scenario.bound_worker
    [ Worker.Message (InitializeModel Scenario.llama);
      Worker.LoadSettled 0 (Some WorkerViews.no_webgpu) ].

(** The worker with one model loaded. *)
Definition loaded_worker : Worker.State :=
  Worker.run Scenario.bound_worker
    [ Worker.Message (InitializeModel Scenario.llama);
      Worker.LoadSettled 0 None ].

End Examples.

(** * Properties *)

(** ** Strings and numbers *)

Module JsFacts.

Lemma to_uint_nonnil (n : nat) : Nat.to_uint n <> Decimal.Nil.
Proof.
  rewrite <- (DecimalNat.Unsigned.of_to n) at 1.
  rewrite DecimalNat.Unsigned.to_of.
  apply DecimalFacts.unorm_nonnil.
Qed.

Lemma number_to_string_inj (n m : nat) :
  Js.number_to_string n = Js.number_to_string m -> n = m.
Proof.
  unfold Js.number_to_string. intros H.
  apply DecimalNat.Unsigned.to_uint_inj.
  apply (f_equal NilZero.uint_of_string) in H.
  rewrite !NilZero.usu in H by apply to_uint_nonnil.
  congruence.
Qed.

(** Below 2^31 the 32-bit cell holds the number itself. *)
Lemma ToInt32_small (z : Z) : (0 <= z < 2 ^ 31)%Z -> Js.ToInt32 z = z.
Proof.
  intros H. unfold Js.ToInt32. rewrite Z.mod_small; lia.
Qed.

Lemma substring_app (p r : string) :
  Js.substring (String.length p) (p ++ r)%string = r.
Proof. induction p as [|a p IH]; [by destruct r | exact IH]. Qed.

Lemma substring_all (s : string) : Js.substring (String.length s) s = "".
Proof. induction s as [|a s IH]; [done | exact IH]. Qed.

End JsFacts.

(** ** The provider *)

Module ProviderFacts.
Import Provider ProviderViews.

Lemma tokenOf_inj (n m : nat) : tokenOf n = tokenOf m -> n = m.
Proof.
  unfold tokenOf. intros H. simpl in H.
  injection H as H. by apply JsFacts.number_to_string_inj.
Qed.

(** *** What the loop of [fetch] computes *)

Lemma mint_eq (n counter : nat) (idTokens : list string)
    (items : list IInlineCompletionItem) :
  mint n counter idTokens items =
    (n + counter,
     idTokens ++ map tokenOf (seq (S counter) n),
     items ++ map (fun k => placeholder (tokenOf k)) (seq (S counter) n)).
Proof.
  revert counter idTokens items.
  induction n as [|n IH]; intros counter idTokens items; simpl.
  - by rewrite !app_nil_r.
  - rewrite IH, <- !app_assoc. simpl. do 3 f_equal. lia.
Qed.

Lemma generated_post (m : ClientMessage) (c : State) :
  generated (_postMessage m c) =
    generated c ++ match m with Generate d => [d] | _ => [] end.
Proof.
  unfold generated, _postMessage. simpl. rewrite omap_app. simpl.
  by destruct m.
Qed.

Lemma quiet_refl c : quiet c c.
Proof. split; [done | by left]. Qed.

(** For updates of fields outside the books. *)
Ltac quiet_by_computation := split; [reflexivity | left; reflexivity].

Lemma quiet_trans c1 c2 c3 : quiet c1 c2 -> quiet c2 c3 -> quiet c1 c3.
Proof.
  intros [H1 H1'] [H2 H2']. split; [congruence |].
  assert (_currentGeneration c2 = _currentGeneration c1) as E
    by (unfold books in H1; congruence).
  rewrite E in H2'. destruct H2' as [H2' | H2']; [| by right].
  rewrite H2'. exact H1'.
Qed.

Lemma quiet_post m c :
  (forall d, m <> Generate d) -> quiet c (_postMessage m c).
Proof.
  intros Hm. split; [| by left].
  unfold books. rewrite generated_post.
  destruct m; simpl; rewrite ?app_nil_r; try done.
  by destruct (Hm data).
Qed.

Lemma quiet_log e c : quiet c (log e c).
Proof. quiet_by_computation. Qed.

Lemma quiet_switchModel m ty c : quiet c (_switchModel m ty c).
Proof.
  unfold _switchModel. case_decide; [apply quiet_refl |].
  set (c1 := match currentModel c ty with Some old => _ | None => c end).
  assert (quiet c c1) as H1.
  { subst c1. destruct (currentModel c ty) as [old|]; [| apply quiet_refl].
    destruct (truthy old); [by apply quiet_post | apply quiet_refl]. }
  set (c2 := if decide (m = "none") then c1 else _).
  assert (quiet c1 c2) as H2.
  { subst c2. case_decide; [apply quiet_refl | by apply quiet_post]. }
  apply (quiet_trans _ c1); [done |]. apply (quiet_trans _ c2); [done |].
  destruct ty; quiet_by_computation.
Qed.

Lemma quiet_configure_resume c : quiet c (configure_resume c).
Proof.
  unfold configure_resume.
  eapply quiet_trans; [| apply quiet_switchModel]. apply quiet_switchModel.
Qed.

Lemma quiet_configure s c : quiet c (configure s c).
Proof.
  unfold configure. simpl.
  destruct (_workerStarted c); [| quiet_by_computation].
  apply (quiet_trans _ (set_settings c s)); [quiet_by_computation |].
  apply quiet_configure_resume.
Qed.

Lemma quiet_iter n c : quiet c (Nat.iter n configure_resume c).
Proof.
  induction n as [|n IH]; simpl; [apply quiet_refl |].
  eapply quiet_trans; [exact IH | apply quiet_configure_resume].
Qed.

Lemma quiet_msgWorkerStarted c : quiet c (_msgWorkerStarted c).
Proof.
  unfold _msgWorkerStarted. destruct (_workerStarted c); [apply quiet_refl |].
  eapply quiet_trans; [| apply quiet_iter].
  eapply quiet_trans; [| by apply quiet_post]. quiet_by_computation.
Qed.

Lemma quiet_interrupt_one c tok : quiet c (interrupt_one c tok).
Proof.
  unfold interrupt_one.
  destruct (_streamPromises c !! tok); quiet_by_computation.
Qed.

Lemma quiet_msgInterrupted l c : quiet c (_msgInterrupted l c).
Proof.
  unfold _msgInterrupted. revert c.
  induction l as [|tok l IH]; intros c; simpl; [apply quiet_refl |].
  eapply quiet_trans; [apply quiet_interrupt_one | apply IH].
Qed.

Lemma quiet_tick c : quiet c (_tickWorker c).
Proof. split; [done | by right]. Qed.

Lemma quiet_arm g tok c : quiet c (arm g tok c).
Proof. quiet_by_computation. Qed.

Lemma quiet_next g c : quiet c (next g c).
Proof.
  unfold next. repeat case_match; try apply quiet_refl; try apply quiet_arm;
    quiet_by_computation.
Qed.

(** *** The body of [fetch] *)

Lemma itemTokens_placeholders (l : list nat) :
  itemTokens (map (fun k => placeholder (tokenOf k)) l) = map tokenOf l.
Proof.
  induction l as [|k l IH]; [done |].
  change (tokenOf k :: itemTokens (map (fun k => placeholder (tokenOf k)) l)
          = tokenOf k :: map tokenOf l).
  by rewrite IH.
Qed.

Lemma fetch_resume_books k c :
  let n := generateN (_settings c) in
  let ids := map tokenOf (seq (S (_tokenCounter c)) n) in
  exists d items,
    books (fetch_resume k c) =
      (S (_currentGeneration c), n + _tokenCounter c,
       returned c ++ [items], generated c ++ [d]) /\
    g_counter d = S (_currentGeneration c) /\
    g_idTokens d = ids /\
    itemTokens items = ids /\
    _sharedArray (fetch_resume k c) = Js.ToInt32 (Z.of_nat (S (_currentGeneration c))).
Proof.
  intros n ids. unfold fetch_resume. cbn -[mint Js.ToInt32].
  rewrite mint_eq. cbn -[Js.ToInt32].
  eexists _, _. split; [| split; [| split; [| split]]].
  - unfold books, generated. cbn -[Js.ToInt32]. rewrite omap_app. reflexivity.
  - reflexivity.
  - reflexivity.
  - apply itemTokens_placeholders.
  - reflexivity.
Qed.

Ltac quietly := eexists _, []; split; [| reflexivity].

(** Every turn of the event loop is a quiet update followed by the
    bodies of the [fetch] calls that get to run in it. *)
Lemma step_shape c e :
  exists c0 ks, quiet c c0 /\ step c e = resumes ks c0.
Proof.
  destruct e as [data | settings | request | tok | g]; simpl.
  - destruct data; simpl.
    + quietly. apply quiet_msgWorkerStarted.
    + quietly. unfold _msgInitiate. case_match; quiet_by_computation.
    + quietly. quiet_by_computation.
    + quietly. quiet_by_computation.
    + unfold _msgReady. cbn.
      destruct (_ready c !! model) as [[|waiters]|] eqn:E.
      * quietly. quiet_by_computation.
      * eexists _, waiters. split; [| reflexivity]. quiet_by_computation.
      * quietly. quiet_by_computation.
    + quietly. unfold _msgUpdate. cbn -[Js.ToInt32].
      case_match; split; try reflexivity; by right.
    + quietly. unfold _msgComplete. case_match; quiet_by_computation.
    + quietly. apply quiet_msgInterrupted.
    + quietly. quiet_by_computation.
    + quietly. quiet_by_computation.
  - quietly. apply quiet_configure.
  - unfold fetch.
    destruct (_ready c !! _) as [[|waiters]|].
    + eexists c, [_]. split; [apply quiet_refl | reflexivity].
    + quietly. quiet_by_computation.
    + quietly. apply quiet_refl.
  - quietly. quiet_by_computation.
  - quietly. apply quiet_next.
Qed.

(** A property of the books that quiet updates and bodies of [fetch]
    keep holds along every run. *)
Lemma run_books_ind (P : State -> Prop) :
  (forall c c', quiet c c' -> P c -> P c') ->
  (forall k c, P c -> P (fetch_resume k c)) ->
  forall events c, P c -> P (run c events).
Proof.
  intros Hq Hf events.
  induction events as [|e events IH]; intros c Hc; [done |].
  simpl. apply IH.
  destruct (step_shape c e) as (c0 & ks & Hc0 & ->).
  apply Hq in Hc0; [| done]. clear Hc. revert c0 Hc0.
  induction ks as [|k ks IHks]; intros c0 Hc0; [done |].
  simpl. apply IHks, Hf, Hc0.
Qed.

(** *** Epochs *)



(** *** Tokens *)

Lemma token_inv_quiet c c' : quiet c c' -> token_inv c -> token_inv c'.
Proof.
  intros [Hb _] [H1 H2]. unfold books in Hb.
  injection Hb as E1 E2 E3 E4. unfold token_inv, minted in *.
  by rewrite E2, E3, E4.
Qed.

Lemma token_inv_fetch k c : token_inv c -> token_inv (fetch_resume k c).
Proof.
  intros [H1 H2].
  destruct (fetch_resume_books k c) as (d & items & Hb & _ & Hd & Hi & _).
  unfold books in Hb. injection Hb as E1 E2 E3 E4.
  unfold token_inv, minted in *.
  rewrite E2, E3, E4, !map_app, !concat_app. simpl. rewrite !app_nil_r.
  rewrite Hd, Hi, H2, H1. split; [| done].
  rewrite Nat.add_comm, seq_app, map_app. done.
Qed.

(** *** Stream delegates *)

Lemma pulls_switchModel m ty c : pulls (_switchModel m ty c) = pulls c.
Proof.
  unfold _switchModel. case_decide; [done |].
  destruct ty, (currentModel c _) as [old|]; try destruct (truthy old);
    case_decide; reflexivity.
Qed.

Lemma pulls_configure_resume c : pulls (configure_resume c) = pulls c.
Proof. unfold configure_resume. by rewrite !pulls_switchModel. Qed.

Lemma pulls_configure s c : pulls (configure s c) = pulls c.
Proof.
  unfold configure. simpl. destruct (_workerStarted c); [| done].
  by rewrite pulls_configure_resume.
Qed.

Lemma pulls_msgWorkerStarted c : pulls (_msgWorkerStarted c) = pulls c.
Proof.
  unfold _msgWorkerStarted. destruct (_workerStarted c) as [|n]; [done |].
  induction n as [|n IH]; [done |]. simpl. by rewrite pulls_configure_resume.
Qed.

Lemma touch_pulls c c' : pulls c' = pulls c -> touch (held c) (held c').
Proof. unfold pulls, held. intros [= -> -> _]. constructor. Qed.

Lemma touch_held c c' : held c' = held c -> touch (held c) (held c').
Proof. intros ->. constructor. Qed.

Lemma touch_resolve m ds tok a v :
  m !! tok = Some a -> touch (m, ds) (m, resolve a v ds).
Proof.
  intros Hm. unfold resolve.
  destruct (ds !! a) as [[| |]|] eqn:E; try constructor.
  by eapply touch_settle.
Qed.

Lemma touch_reject m ds tok a :
  m !! tok = Some a -> touch (m, ds) (m, reject a ds).
Proof.
  intros Hm. unfold reject.
  destruct (ds !! a) as [[| |]|] eqn:E; try constructor.
  by eapply touch_settle.
Qed.

Lemma touch_delete m ds (tok : string) : touch (m, ds) (delete tok m, ds).
Proof. apply touch_forget, delete_subseteq. Qed.

Lemma touch_interrupt_one c tok : touch (held c) (held (interrupt_one c tok)).
Proof.
  unfold interrupt_one, held.
  destruct (_streamPromises c !! tok) as [a|] eqn:E; simpl.
  - eapply touch_trans; [by eapply touch_reject | apply touch_delete].
  - apply touch_delete.
Qed.

Lemma touch_msgInterrupted l c : touch (held c) (held (_msgInterrupted l c)).
Proof.
  unfold _msgInterrupted. revert c.
  induction l as [|tok l IH]; intros c; simpl; [constructor |].
  eapply touch_trans; [apply touch_interrupt_one | apply IH].
Qed.

Lemma touch_fetch_resume k c : touch (held c) (held (fetch_resume k c)).
Proof.
  unfold fetch_resume, held. cbn -[mint Js.ToInt32]. rewrite mint_eq.
  cbn -[Js.ToInt32]. apply touch_forget, map_empty_subseteq.
Qed.

Lemma touch_resumes ks c : touch (held c) (held (resumes ks c)).
Proof.
  revert c. induction ks as [|k ks IH]; intros c; simpl; [constructor |].
  eapply touch_trans; [apply touch_fetch_resume | apply IH].
Qed.

Lemma touch_next g c : touch (held c) (held (next g c)).
Proof.
  unfold next. repeat case_match; try (apply touch_held; reflexivity);
    apply touch_arm.
Qed.

Lemma step_touch c e : touch (held c) (held (step c e)).
Proof.
  destruct e as [data | settings | request | tok | g]; simpl.
  - destruct data; simpl; try (apply touch_pulls; reflexivity).
    + apply touch_pulls, pulls_msgWorkerStarted.
    + apply touch_pulls. unfold _msgInitiate. by case_match.
    + unfold _msgReady. cbn.
      destruct (_ready c !! model) as [[|waiters]|];
        try (apply touch_pulls; reflexivity).
      eapply touch_trans; [| apply touch_resumes].
      apply touch_pulls; reflexivity.
    + unfold _msgUpdate, held. cbn -[Js.ToInt32].
      destruct (_streamPromises c !! idToken) as [a|] eqn:E;
        [| apply touch_pulls; reflexivity].
      by eapply touch_resolve.
    + unfold _msgComplete, held.
      destruct (_streamPromises c !! idToken) as [a|] eqn:E; simpl.
      * eapply touch_trans; [by eapply touch_resolve | apply touch_delete].
      * apply touch_delete.
    + apply touch_msgInterrupted.
  - apply touch_pulls, pulls_configure.
  - unfold fetch. destruct (_ready c !! _) as [[|waiters]|];
      try (apply touch_pulls; reflexivity).
    apply touch_fetch_resume.
  - apply touch_held; reflexivity.
  - apply touch_next.
Qed.

Lemma run_touch events c : touch (held c) (held (run c events)).
Proof.
  revert c. induction events as [|e events IH]; intros c; simpl; [constructor |].
  eapply touch_trans; [apply step_touch | apply IH].
Qed.

(** A settled delegate keeps its state. *)
Lemma touch_settled x y a s :
  touch x y -> s <> Pending -> x.2 !! a = Some s -> y.2 !! a = Some s.
Proof.
  intros Ht Hs. induction Ht as [x | m ds tok b s' Hm Hb Hs' | m m' ds Hsub
                                 | m ds tok | x y z Ht1 IH1 Ht2 IH2];
    simpl; intros Ha.
  - done.
  - destruct (decide (a = b)) as [-> | Hne]; [congruence |].
    by rewrite list_lookup_insert_ne.
  - done.
  - by apply lookup_app_l_Some.
  - auto.
Qed.

Lemma touch_unheld x y d :
  touch x y -> unheld d x -> unheld d y /\ y.2 !! d = x.2 !! d.
Proof.
  intros Ht. induction Ht as [x | m ds tok b s' Hm Hb Hs' | m m' ds Hsub
                              | m ds tok | x y z Ht1 IH1 Ht2 IH2];
    intros [Hlt Hun]; simpl in *.
  - done.
  - pose proof (Hun _ _ Hm) as Hne. split; [split |]; simpl.
    + by rewrite length_insert.
    + exact Hun.
    + by rewrite list_lookup_insert_ne.
  - split; [| done]. split; [done |]. simpl. intros tok a H. eapply Hun.
    by eapply lookup_weaken.
  - split; [split |]; simpl.
    + rewrite length_app. simpl. lia.
    + intros tok' a. rewrite lookup_insert. case_decide; [| by eauto].
      intros [= <-]. lia.
    + by rewrite lookup_app_l.
  - destruct (IH1 (conj Hlt Hun)) as [H1 E1].
    destruct (IH2 H1) as [H2 E2]. split; [done | congruence].
Qed.

(** *** Generators *)

Lemma generators_resumes ks c : generators (resumes ks c) = generators c.
Proof.
  revert c. induction ks as [|k ks IH]; intros c; simpl; [done |].
  rewrite IH. unfold fetch_resume. cbn -[mint Js.ToInt32]. rewrite mint_eq.
  reflexivity.
Qed.

Lemma generators_msgInterrupted l c : generators (_msgInterrupted l c) = generators c.
Proof.
  unfold _msgInterrupted. revert c.
  induction l as [|tok l IH]; intros c; simpl; [done |].
  rewrite IH. unfold interrupt_one. by case_match.
Qed.

Lemma generators_receive data c : generators (_onMessageReceived data c) = generators c.
Proof.
  destruct data; simpl; try reflexivity.
  - pose proof (pulls_msgWorkerStarted c) as H. unfold pulls in H. congruence.
  - unfold _msgInitiate. by case_match.
  - unfold _msgReady. cbn. destruct (_ready c !! model) as [[|waiters]|]; try done.
    by rewrite (generators_resumes waiters).
  - unfold _msgUpdate. by case_match.
  - unfold _msgComplete. by case_match.
  - apply generators_msgInterrupted.
Qed.

Lemma generators_fetch request c : generators (fetch request c).1 = generators c.
Proof.
  unfold fetch. destruct (_ready c !! _) as [[|waiters]|]; try done.
  simpl. match goal with |- generators (fetch_resume ?k c) = _ =>
    exact (generators_resumes [k] c) end.
Qed.

Lemma generators_configure s c : generators (configure s c) = generators c.
Proof. pose proof (pulls_configure s c) as H. unfold pulls in H. congruence. Qed.

Lemma pull_or_not (e : Event) (g : nat) : e = CallNext g \/ e <> CallNext g.
Proof.
  destruct e as [| | | | g']; try (right; discriminate).
  destruct (decide (g' = g)) as [-> | Hne]; [by left | right; congruence].
Qed.

(** A turn of the loop leaves generator [g] alone, unless it is a pull
    on [g]. *)
Lemma generators_step_other c e g x :
  e <> CallNext g ->
  generators c !! g = Some x -> generators (step c e) !! g = Some x.
Proof.
  intros He Hg. destruct e as [data | settings | request | tok | g']; simpl.
  - by rewrite generators_receive.
  - by rewrite generators_configure.
  - by rewrite generators_fetch.
  - by apply lookup_app_l_Some.
  - assert (g' <> g) as Hne by congruence.
    unfold next, arm. repeat case_match; simpl; try done;
      by rewrite list_lookup_insert_ne.
Qed.

(** A pull that is still pending keeps its generator where it is. *)
Lemma generator_waits c e g tok d :
  generators c !! g = Some (tok, AtYield d) ->
  delegates c !! d = Some Pending ->
  generators (step c e) !! g = Some (tok, AtYield d).
Proof.
  intros Hg Hd. destruct (pull_or_not e g) as [-> | He].
  - simpl. unfold next. by rewrite Hg, Hd.
  - by apply generators_step_other.
Qed.

Lemma generator_over c e g tok d :
  delegates c !! d = Some Rejected ->
  over tok d g c -> over tok d g (step c e).
Proof.
  intros Hd Hg. destruct (pull_or_not e g) as [-> | He].
  - simpl. unfold next, over in *. destruct Hg as [Hg | Hg]; rewrite Hg.
    + rewrite Hd. simpl. right. apply list_lookup_insert_eq.
      by eapply lookup_lt_Some.
    + by right.
  - destruct Hg as [Hg | Hg]; [left | right]; by apply generators_step_other.
Qed.

Lemma observe_pending c g tok d :
  generators c !! g = Some (tok, AtYield d) ->
  delegates c !! d = Some Pending ->
  observe c g = Some PullPending.
Proof. intros Hg Hd. unfold observe. by rewrite Hg, Hd. Qed.

Lemma observe_pending_inv c g :
  observe c g = Some PullPending ->
  exists tok d, generators c !! g = Some (tok, AtYield d) /\
                delegates c !! d = Some Pending.
Proof.
  unfold observe. destruct (generators c !! g) as [[tok [|d|]]|]; try done.
  destruct (delegates c !! d) as [[| |]|] eqn:E; try done. eauto.
Qed.

Lemma observe_over c g tok d :
  delegates c !! d = Some Rejected ->
  over tok d g c ->
  observe c g = Some PullRejected \/ observe c g = Some Ended.
Proof.
  intros Hd [Hg | Hg]; unfold observe; rewrite Hg; [rewrite Hd |]; auto.
Qed.

(** *** A [fetch] that returns *)

Lemma held_fetch_resume k c :
  held (fetch_resume k c) = (∅, delegates c).
Proof.
  unfold fetch_resume, held. cbn -[mint Js.ToInt32]. rewrite mint_eq. reflexivity.
Qed.

Lemma held_resumes k ks c : held (resumes (k :: ks) c) = (∅, delegates c).
Proof.
  revert k c. induction ks as [|k' ks IH]; intros k c.
  - apply held_fetch_resume.
  - change (resumes (k :: k' :: ks) c) with (resumes (k' :: ks) (fetch_resume k c)).
    rewrite IH. f_equal.
    exact (f_equal snd (held_fetch_resume k c)).
Qed.

Lemma returned_resumes ks c :
  length (returned (resumes ks c)) = length ks + length (returned c).
Proof.
  revert c. induction ks as [|k ks IH]; intros c; [done |].
  change (resumes (k :: ks) c) with (resumes ks (fetch_resume k c)).
  rewrite IH. destruct (fetch_resume_books k c) as (d & items & Hb & _).
  unfold books in Hb. injection Hb as _ _ -> _. rewrite length_app. simpl. lia.
Qed.

(** In a turn where a [fetch] call returns, the map of delegates ends up
    empty, and the store and the generators are as before. *)
Lemma fetch_returns_clears c e :
  length (returned c) < length (returned (step c e)) ->
  _streamPromises (step c e) = ∅ /\
  delegates (step c e) = delegates c /\
  generators (step c e) = generators c.
Proof.
  intros Hlt.
  assert (exists c0 k ks, pulls c0 = pulls c /\ step c e = resumes (k :: ks) c0)
    as (c0 & k & ks & Hp & Hs).
  { destruct e as [data | settings | request | tok | g]; simpl in *.
    - destruct data; simpl in *.
      all: try (exfalso; revert Hlt; apply Nat.lt_irrefl).
      + exfalso. pose proof (quiet_msgWorkerStarted c) as [Hb _].
        unfold books in Hb. injection Hb as _ _ E _. rewrite E in Hlt. lia.
      + exfalso. unfold _msgInitiate in Hlt. destruct (_ !! _) in Hlt; simpl in Hlt; lia.
      + unfold _msgReady in *. cbn in *.
        destruct (_ready c !! model) as [[|[|k ks]]|]; simpl in Hlt; try lia.
        eexists _, k, ks. split; [| reflexivity]. reflexivity.
      + exfalso. unfold _msgUpdate in Hlt. destruct (_ !! _) in Hlt; simpl in Hlt; lia.
      + exfalso. unfold _msgComplete in Hlt. destruct (_ !! _) in Hlt; simpl in Hlt; lia.
      + exfalso. pose proof (quiet_msgInterrupted idTokens c) as [Hb _].
        unfold books in Hb. injection Hb as _ _ E _. rewrite E in Hlt. lia.
    - exfalso. pose proof (quiet_configure settings c) as [Hb _].
      unfold books in Hb. injection Hb as _ _ E _. rewrite E in Hlt. lia.
    - unfold fetch in *. destruct (_ready c !! _) as [[|waiters]|]; simpl in Hlt; try lia.
      eexists c, _, []. split; reflexivity.
    - lia.
    - exfalso. pose proof (quiet_next g c) as [Hb _].
      unfold books in Hb. injection Hb as _ _ E _. rewrite E in Hlt. lia. }
  rewrite Hs. pose proof (held_resumes k ks c0) as Hh.
  unfold pulls in Hp. injection Hp as _ Hd Hg.
  split; [exact (f_equal fst Hh) |]. split.
  - etrans; [exact (f_equal snd Hh) | exact Hd].
  - by rewrite generators_resumes.
Qed.

(** *** Readiness *)

Lemma conf_switchModel m ty c : conf (_switchModel m ty c) = conf c.
Proof.
  unfold _switchModel. case_decide; [done |].
  destruct ty, (currentModel c _) as [old|]; try destruct (truthy old);
    case_decide; reflexivity.
Qed.

Lemma conf_configure_resume c : conf (configure_resume c) = conf c.
Proof. unfold configure_resume. by rewrite !conf_switchModel. Qed.



Lemma conf_fetch_resume k c : conf (fetch_resume k c) = conf c.
Proof.
  unfold fetch_resume. cbn -[mint Js.ToInt32]. rewrite mint_eq. reflexivity.
Qed.

Lemma conf_resumes ks c : conf (resumes ks c) = conf c.
Proof.
  revert c. induction ks as [|k ks IH]; intros c; simpl; [done |].
  by rewrite IH, conf_fetch_resume.
Qed.




(** X29. A [fetch] on a model that is ready returns in the same turn; a
    sequence of such calls all return, each stepping the epoch by one. *)
Lemma fetches_all_return (requests : list IRequest) (c : State) :
  (forall r, r ∈ requests -> _ready c !! selectedModel c r = Some ReadyResolved) ->
  let c' := run c (map CallFetch requests) in
  length (returned c') = length (returned c) + length requests /\
  _currentGeneration c' = _currentGeneration c + length requests.
Proof.
  revert c. induction requests as [|r requests IH]; intros c Hready c'; subst c'.
  - simpl. by rewrite !Nat.add_0_r.
  - change (run c (map CallFetch (r :: requests)))
      with (run (fetch r c).1 (map CallFetch requests)).
    unfold fetch. rewrite (Hready r) by constructor. simpl.
    set (k := {| k_model := _; k_isText := _; k_request := _ |}).
    pose proof (conf_fetch_resume k c) as Hc. unfold conf in Hc. injection Hc as Hr Hs.
    destruct (IH (fetch_resume k c)) as [H1 H2].
    { intros r' Hr'. unfold selectedModel in *. rewrite Hr, Hs.
      apply Hready. by constructor. }
    rewrite H1, H2.
    destruct (fetch_resume_books k c) as (d & items & Hb & _).
    unfold books in Hb. injection Hb as -> _ -> _. rewrite length_app. simpl. lia.
Qed.

(** *** Superseded pulls, epochs, tokens, readiness *)

(** C1 (as amended). When a [fetch] call returns while a pull of a
    generator of [stream] is pending, that pull stays pending for ever:
    whatever messages arrive and whatever else is called afterwards, its
    consumer gets neither a value nor a rejection.  The delegate of the
    pull was registered in the map that [fetch] has just replaced, so no
    later event of the superseded request can reach it. *)
Theorem superseded_pull_stays_pending (c : State) (e : Event) (g : nat)
    (events : list Event) :
  observe c g = Some PullPending ->
  length (returned c) < length (returned (step c e)) ->
  observe (run (step c e) events) g = Some PullPending.
Proof.
  intros Ho Hlt.
  apply observe_pending_inv in Ho as (tok & d & Hg & Hd).
  destruct (fetch_returns_clears c e Hlt) as (Hm & Hds & Hgs).
  assert (generators (step c e) !! g = Some (tok, AtYield d) /\
          delegates (step c e) !! d = Some Pending /\
          unheld d (held (step c e))) as Hinv.
  { rewrite Hgs, Hds. split; [done |]. split; [done |]. split; simpl.
    - rewrite Hds. by eapply lookup_lt_Some.
    - intros tok' a. by rewrite Hm, lookup_empty. }
  clear Hlt Hm Hds Hgs. revert Hinv. generalize (step c e). clear c Hg Hd.
  induction events as [|e' events IH]; intros c (Hg & Hd & Hu).
  - by eapply observe_pending.
  - simpl. apply IH.
    destruct (touch_unheld _ _ d (step_touch c e') Hu) as [Hu' E].
    split; [by eapply generator_waits |]. split; [| done].
    simpl in E. by rewrite E.
Qed.


(** C10. Along every run from the initial state, the tokens minted so
    far are ['T1'], ['T2'], ... up to [_tokenCounter], each once: no token
    is ever minted twice, within a [fetch] or across [fetch] calls.  The
    tokens of the placeholder items are the tokens of the [generate]
    messages. *)
Theorem tokens_never_repeat (events : list Event) :
  let c := run initial events in
  NoDup (minted c) /\
  minted c = map tokenOf (seq 1 (_tokenCounter c)) /\
  concat (map itemTokens (returned c)) = minted c.
Proof.
  intros c.
  assert (token_inv c) as [H1 H2].
  { apply run_books_ind.
    - apply token_inv_quiet.
    - apply token_inv_fetch.
    - by split. }
  split; [| done]. rewrite H1.
  apply NoDup_fmap_2; [| apply NoDup_seq].
  intros n m. apply tokenOf_inj.
Qed.



(** *** Interruption *)

Lemma reject_rejected (a b : nat) (ds : list Settled) :
  ds !! a = Some Rejected -> reject b ds !! a = Some Rejected.
Proof.
  intros Ha. unfold reject. destruct (ds !! b) as [[| |]|] eqn:Hb; try done.
  destruct (decide (a = b)) as [-> | Hne]; [congruence |].
  by rewrite list_lookup_insert_ne.
Qed.

Lemma reject_pending (a b : nat) (ds : list Settled) :
  ds !! a = Some Pending ->
  reject b ds !! a = Some (if decide (a = b) then Rejected else Pending).
Proof.
  intros Ha. unfold reject. case_decide as Hab.
  - subst b. rewrite Ha. apply list_lookup_insert_eq. by eapply lookup_lt_Some.
  - destruct (ds !! b) as [[| |]|] eqn:Hb; try done.
    by rewrite list_lookup_insert_ne.
Qed.

(** Once the delegate at [a] is rejected and [tok] is out of the map,
    the rest of the loop keeps it so. *)
Lemma interrupted_stable (l : list string) (c : State) (tok : string) (a : nat) :
  delegates c !! a = Some Rejected ->
  _streamPromises c !! tok = None ->
  delegates (_msgInterrupted l c) !! a = Some Rejected /\
  _streamPromises (_msgInterrupted l c) !! tok = None.
Proof.
  unfold _msgInterrupted. revert c.
  induction l as [|t l IH]; intros c Ha Htok; [done |].
  simpl. apply IH; unfold interrupt_one.
  - destruct (_streamPromises c !! t); simpl; [by apply reject_rejected | done].
  - destruct (_streamPromises c !! t); simpl;
      rewrite lookup_delete; by case_decide.
Qed.

Lemma interrupted_rejects (l : list string) (c : State) (tok : string) (a : nat) :
  tok ∈ l ->
  _streamPromises c !! tok = Some a ->
  delegates c !! a = Some Pending \/ delegates c !! a = Some Rejected ->
  delegates (_msgInterrupted l c) !! a = Some Rejected /\
  _streamPromises (_msgInterrupted l c) !! tok = None.
Proof.
  revert c. induction l as [|t l IH]; intros c Hin Htok Ha.
  - by apply elem_of_nil in Hin.
  - change (_msgInterrupted (t :: l) c) with (_msgInterrupted l (interrupt_one c t)).
    destruct (decide (t = tok)) as [-> | Hne].
    + apply interrupted_stable; unfold interrupt_one; rewrite Htok; simpl.
      * destruct Ha as [Ha | Ha]; [| by apply reject_rejected].
        rewrite (reject_pending _ _ _ Ha). by case_decide.
      * apply lookup_delete_eq.
    + apply elem_of_cons in Hin as [-> | Hin]; [done |].
      apply IH; [done | |]; unfold interrupt_one.
      * destruct (_streamPromises c !! t); simpl; by rewrite lookup_delete_ne.
      * destruct (_streamPromises c !! t) as [b|]; simpl; [| done].
        destruct Ha as [Ha | Ha]; [| right; by apply reject_rejected].
        rewrite (reject_pending _ _ _ Ha). case_decide; auto.
Qed.

(** C8 (as amended). Let the delegate of a pending pull of [stream(tok)]
    be the entry of [tok] in the current [_streamPromises].  When an
    [interrupted] message that lists [tok] arrives, that delegate is
    rejected (not resolved), the entry of [tok] is removed, the consumer
    of the generator sees its pull fail, and from then on the generator
    never yields a value: all it can still do is end. *)
Theorem interrupted_fails_pending_pull (c : State) (idTokens : list string)
    (error : option string) (tok : string) (a g : nat) (events : list Event) :
  tok ∈ idTokens ->
  _streamPromises c !! tok = Some a ->
  delegates c !! a = Some Pending ->
  generators c !! g = Some (tok, AtYield a) ->
  let c' := step c (Receive (Interrupted idTokens error)) in
  delegates c' !! a = Some Rejected /\
  _streamPromises c' !! tok = None /\
  observe c' g = Some PullRejected /\
  (observe (run c' events) g = Some PullRejected \/
   observe (run c' events) g = Some Ended).
Proof.
  intros Hin Htok Ha Hg c'. subst c'. simpl.
  destruct (interrupted_rejects idTokens c tok a Hin Htok (or_introl Ha)) as [Hr Hn].
  assert (generators (_msgInterrupted idTokens c) !! g = Some (tok, AtYield a)) as Hg'
    by by rewrite generators_msgInterrupted.
  split; [done |]. split; [done |]. split.
  { unfold observe. by rewrite Hg', Hr. }
  assert (over tok a g (_msgInterrupted idTokens c)) as Ho by by left.
  clear Hg'. revert Hr Ho. generalize (_msgInterrupted idTokens c).
  clear. induction events as [|e events IH]; intros c Hr Ho.
  - by eapply observe_over.
  - simpl. apply IH.
    + apply (touch_settled _ _ a Rejected (step_touch c e)); done.
    + by apply generator_over.
Qed.

(** *** Concrete runs *)

Import Scenario.

Lemma superseded_pull_stays_pending_witness :
  observe
    (run (step pulling (CallFetch markdown))
       [ Receive (Update "T1" "late");
         Receive (Complete "T1" "late too");
         Receive (Interrupted ["T1"; "T2"] (Some "Execution interrupted"));
         CallNext 0 ]) 0
  = Some PullPending.
Proof.
  apply superseded_pull_stays_pending; [reflexivity | vm_compute; lia].
Defined.

(** C1 as stated fails.  The first [fetch] mints T1 and T2 and its
    stream for T1 is read once; a second [fetch] returns; the consumer of
    the first stream pulls again, which registers a delegate for T1 in
    the new map; an [update] of the superseded request for T1 then
    reaches that consumer as a value. *)
Lemma stale_update_reaches_consumer :
  let c1 := run pulling [ Receive (Update "T1" " for") ] in
  let c2 := run c1 [ CallFetch markdown ] in
  let c3 := run c2 [ CallNext 0; Receive (Update "T1" "stale") ] in
  minted pulling = ["T1"; "T2"] /\
  minted c2 = ["T1"; "T2"; "T3"; "T4"] /\
  length (returned c2) = 2 /\
  observe c3 0 = Some (Yielded stale).
Proof. vm_compute. done. Qed.

Lemma interrupted_fails_pending_pull_witness :
  let c' := step pulling (Receive (Interrupted ["T1"; "T2"] (Some "Execution interrupted"))) in
  let later := run c' [ Receive (Update "T1" "late"); CallNext 0; CallNext 0 ] in
  delegates c' !! 0 = Some Rejected /\
  _streamPromises c' !! "T1" = None /\
  observe c' 0 = Some PullRejected /\
  (observe later 0 = Some PullRejected \/ observe later 0 = Some Ended).
Proof.
  apply (interrupted_fails_pending_pull pulling ["T1"; "T2"] _ "T1" 0 0).
  - constructor.
  - reflexivity.
  - reflexivity.
  - reflexivity.
Defined.

(** C8 as stated fails.  The pull of [stream('T1')] is pending when a
    second [fetch] returns; the worker then reports the first request as
    interrupted, listing T1.  The delegate of the pull is no longer in the
    map: it is not rejected, and the pull stays pending. *)
Lemma interrupted_misses_superseded_pull :
  let c := step pulling (CallFetch markdown) in
  let c' := step c (Receive (Interrupted ["T1"; "T2"] (Some "Execution interrupted"))) in
  generators pulling !! 0 = Some ("T1", AtYield 0) /\
  observe c 0 = Some PullPending /\
  delegates c' !! 0 = Some Pending /\
  observe c' 0 = Some PullPending.
Proof. vm_compute. done. Qed.



End ProviderFacts.

(** ** The worker *)

Module WorkerFacts.
Import Worker WorkerViews.

(** *** The registry *)

Lemma handleOf_set_instance (h : nat) (i : Instance) (w : State) (m : CompletionModel) :
  handleOf w h = Some m ->
  handleOf (set_instance h i w) h = Some {| model := model m; _instance := i |}.
Proof.
  unfold handleOf, set_instance. simpl. intros H.
  by rewrite list_lookup_alter, decide_True, H.
Qed.

Lemma catches_app rs rs' : catches (rs ++ rs') = catches rs + catches rs'.
Proof.
  induction rs as [|r rs IH]; [done |]. destruct r; simpl; by rewrite IH.
Qed.

(** Reactions to a failed load post [exception] messages without tokens
    and start nothing. *)
Lemma failed_reactions (e : Thrown) (rs : list Reaction) (w : State) :
  let w' := fold_left (fun w r => react_failed e r w) rs w in
  posted w' = posted w ++ replicate (catches rs) (Exception None (Some (describe e))) /\
  tasks w' = tasks w /\ engine w' = engine w.
Proof.
  revert w. induction rs as [|r rs IH]; intros w; simpl.
  - by rewrite app_nil_r.
  - destruct (IH (react_failed e r w)) as (Hp & Ht & He).
    rewrite Hp, Ht, He. destruct r; simpl; rewrite <- ?app_assoc; done.
Qed.

(** C4 (as amended). A [generate] request arrives, its model is (still
    or newly) loading, and the load fails.  Then the worker posts
    [exception] messages that carry the text of the error and no tokens
    (one for the request, one per pending [initializeModel]), and nothing
    else: the request is over, no task was started for it, hence no
    [update] and no [complete].  Before the failure the request had
    posted nothing but, for a new model, [initiate]. *)
Theorem load_failure_aborts (w : State) (data : IGenerate) (e : Thrown)
    (h : nat) (name : string) (rs : list Reaction) :
  _sharedArray w = true ->
  let w1 := step w (Message (Generate data)) in
  _completionModels w1 !! g_model data = Some h ->
  handleOf w1 h = Some {| model := name; _instance := Loading rs |} ->
  let w2 := step w1 (LoadSettled h (Some e)) in
  (exists k, posted w2 =
     posted w1 ++ replicate (S k) (Exception None (Some (describe e)))) /\
  tasks w2 = tasks w /\
  (posted w1 = posted w \/ posted w1 = posted w ++ [Initiate (g_model data)]).
Proof.
  intros Hbuf w1 Hreg Hh w2.
  assert (exists rs0, rs = rs0 ++ [ResumeGenerate data] /\ tasks w1 = tasks w /\
            (posted w1 = posted w \/ posted w1 = posted w ++ [Initiate (g_model data)]))
    as (rs0 & -> & Ht & Hp).
  { subst w1 w2. simpl in *. unfold _generate in *. rewrite Hbuf in *.
    unfold _initializeModel in *.
    destruct (_completionModels w !! g_model data) as [h0|] eqn:E.
    - unfold attach in *.
      destruct (handleOf w h0) as [m|] eqn:Em.
      + destruct m as [nm [rs0| |e0]]; simpl in *.
        * rewrite E in Hreg. injection Hreg as <-.
          rewrite (handleOf_set_instance _ _ _ _ Em) in Hh. simpl in Hh.
          injection Hh as _ <-. eauto.
        * exfalso. unfold generate_resume in *.
          destruct (superseded data w); simpl in *;
            rewrite E in Hreg; injection Hreg as <-;
            unfold handleOf in *; simpl in *; congruence.
        * exfalso. rewrite E in Hreg. injection Hreg as <-.
          unfold handleOf in *; simpl in *; congruence.
      + exfalso. rewrite E in Hreg. injection Hreg as <-. congruence.
    - unfold attach in *. unfold handleOf in *. simpl in *.
      rewrite lookup_app_r, Nat.sub_diag in * by done. simpl in *.
      rewrite lookup_insert_eq in Hreg. injection Hreg as <-.
      unfold set_instance in Hh. simpl in Hh.
      rewrite list_lookup_alter, decide_True in Hh by done.
      rewrite lookup_app_r, Nat.sub_diag in Hh by done. simpl in Hh.
      injection Hh as _ <-. exists [PostDone]. auto. }
  subst w2. simpl. unfold on_settled. rewrite Hh. simpl.
  destruct (failed_reactions e (rs0 ++ [ResumeGenerate data])
              (set_instance h (Failed e) w1)) as (Hp' & Ht' & _).
  split; [| split; [| done]].
  - exists (catches rs0). rewrite Hp'. simpl.
    rewrite catches_app. simpl. by rewrite Nat.add_1_r.
  - by rewrite Ht'.
Qed.

(** *** The loops of [_generate] *)

(** The loop over the candidates for one chunk that has a choice for
    every candidate: no error, one [update] per candidate in order, each
    with the accumulated output of its candidate cut at the length of
    the prompt; the accumulated outputs grow by the deltas. *)
Lemma fan_out_updates (data : IGenerate) (choices : list (option string))
    (r i : nat) (output : list string) (w : State) :
  i + r <= length choices ->
  exists w' output',
    fan_out data choices r i output w = (w', output', None) /\
    posted w' = posted w ++
      map (fun j => Update (at_index (g_idTokens data) j)
                      (Js.substring (String.length (g_text data)) (at_index output' j)))
          (seq i r) /\
    (forall j, output' !! j =
       if decide (i <= j < i + r)
       then grow (default None (choices !! j)) <$> output !! j
       else output !! j) /\
    tasks w' = tasks w /\ console w' = console w /\ engine w' = engine w.
Proof.
  revert i output w. induction r as [|r IH]; intros i output w Hlen.
  - eexists w, output. simpl. rewrite app_nil_r. repeat split; try done.
    intros j. case_decide; [lia | done].
  - simpl. destruct (choices !! i) as [content|] eqn:Ec.
    2: { apply lookup_ge_None in Ec. lia. }
    destruct (IH (S i) (alter (grow content) i output)
                (postMessage
                   (Update (at_index (g_idTokens data) i)
                      (Js.substring (String.length (g_text data))
                         (at_index (alter (grow content) i output) i))) w))
      as (w' & output' & -> & Hp & Ho & Ht & Hc & He); [lia |].
    eexists w', output'. split; [done |]. split; [| split; [| done]].
    + rewrite Hp. simpl. rewrite <- app_assoc. simpl. do 3 f_equal.
      unfold at_index. rewrite Ho. by rewrite decide_False by lia.
    + intros j. rewrite Ho. destruct (decide (j = i)) as [-> | Hne].
      * rewrite decide_False, decide_True by lia.
        by rewrite list_lookup_alter, decide_True, Ec.
      * rewrite list_lookup_alter_ne by done.
        repeat case_decide; try done; lia.
Qed.

(** Trimming: an accumulated output that starts with the prompt is cut
    down to what follows the prompt. *)
Lemma update_is_trimmed (data : IGenerate) (rest : string) :
  Js.substring (String.length (g_text data)) (g_text data ++ rest)%string = rest.
Proof. apply JsFacts.substring_app. Qed.

(** The last loop fails at its first turn: [generated_text] is
    [undefined] on a string. *)
Lemma complete_loop_throws (data : IGenerate) (i : nat) (o : string)
    (rest : list string) (w : State) :
  complete_loop data i (o :: rest) w =
    (w, Some (Js.CannotReadProperties "undefined" "substring")).
Proof. reflexivity. Qed.

(** So a stream that ends normally, for a request with at least one
    candidate, posts nothing more: the call ends in a rejection that
    nobody handles. *)
Lemma stream_end_posts_nothing (w : State) (t : nat) (data : IGenerate) (h : nat)
    (output : list string) :
  tasks w !! t = Some (Streaming data h output) ->
  output <> [] ->
  posted (step w (StreamEnd t)) = posted w /\
  console (step w (StreamEnd t)) =
    console w ++ [UnhandledRejection
                    "Cannot read properties of undefined (reading 'substring')"].
Proof.
  intros Ht Ho. simpl. rewrite Ht. unfold finish.
  destruct output as [|o rest]; [done |]. by rewrite complete_loop_throws.
Qed.

(** *** The worker never posts [ready] *)

Lemma anr_same w w' : posted w' = posted w -> adds_no_ready w w'.
Proof.
  intros H. exists []. rewrite app_nil_r. split; [done |].
  intros m. apply not_elem_of_nil.
Qed.

Lemma anr_trans w1 w2 w3 :
  adds_no_ready w1 w2 -> adds_no_ready w2 w3 -> adds_no_ready w1 w3.
Proof.
  intros (ms & E & H) (ms' & E' & H'). exists (ms ++ ms').
  rewrite E', E, app_assoc. split; [done |].
  intros m [Hin | Hin]%elem_of_app; [by eapply H | by eapply H'].
Qed.

Lemma anr_post msg w :
  (forall m, msg <> Ready m) -> adds_no_ready w (postMessage msg w).
Proof.
  intros Hm. exists [msg]. split; [done |].
  intros m Hin. apply elem_of_cons in Hin as [E | Hin].
  - by apply (Hm m).
  - by apply elem_of_nil in Hin.
Qed.

Ltac anr :=
  first [ apply anr_same; reflexivity
        | apply anr_post; discriminate ].

Lemma anr_fold {A} (f : State -> A -> State) (l : list A) (w : State) :
  (forall w x, adds_no_ready w (f w x)) -> adds_no_ready w (fold_left f l w).
Proof.
  intros Hf. revert w. induction l as [|x l IH]; intros w; simpl; [anr |].
  eapply anr_trans; [apply Hf | apply IH].
Qed.

Lemma anr_fan_out data choices r i output w :
  adds_no_ready w (fan_out data choices r i output w).1.1.
Proof.
  revert i output w. induction r as [|r IH]; intros i output w; simpl; [anr |].
  destruct (choices !! i); [| anr].
  eapply anr_trans; [| apply IH]. anr.
Qed.

Lemma anr_complete_loop data i rest w :
  adds_no_ready w (complete_loop data i rest w).1.
Proof. destruct rest; anr. Qed.

Lemma anr_finish t data output w : adds_no_ready w (finish t data output w).
Proof.
  unfold finish.
  pose proof (anr_complete_loop data 0 output (set_task t Over w)) as H.
  destruct (complete_loop data 0 output (set_task t Over w)) as [w' [e|]];
    simpl in H; (eapply anr_trans; [| eapply anr_trans; [exact H |]]); anr.
Qed.

Lemma anr_on_catch data message w : adds_no_ready w (on_catch data message w).
Proof. unfold on_catch. case_decide; anr. Qed.

Lemma anr_generate_resume data h w : adds_no_ready w (generate_resume data h w).
Proof. unfold generate_resume. destruct (superseded data w); anr. Qed.

Lemma anr_on_chunk t data h output choices w :
  adds_no_ready w (on_chunk t data h output choices w).
Proof.
  unfold on_chunk. destruct (superseded data w).
  - eapply anr_trans; [| apply anr_finish].
    eapply anr_trans; [| apply anr_on_catch]. anr.
  - pose proof (anr_fan_out data choices (length (g_idTokens data)) 0 output
                  (print (ConsoleLogChunk choices) w)) as H.
    destruct (fan_out _ _ _ _ _ _) as [[w' output'] [e|]]; simpl in H.
    + eapply anr_trans; [| apply anr_finish].
      eapply anr_trans; [| apply anr_on_catch].
      eapply anr_trans; [| exact H]. anr.
    + eapply anr_trans; [| eapply anr_trans; [exact H |]]; anr.
Qed.

Lemma anr_react_loaded h name r w : adds_no_ready w (react_loaded h name r w).
Proof. destruct r; simpl; try anr. apply anr_generate_resume. Qed.

Lemma anr_react_failed e r w : adds_no_ready w (react_failed e r w).
Proof. destruct r; simpl; anr. Qed.

Lemma anr_attach h r w : adds_no_ready w (attach h r w).
Proof.
  unfold attach. destruct (handleOf w h) as [[name [rs| |e]]|]; simpl; try anr.
  - apply anr_react_loaded.
  - apply anr_react_failed.
Qed.

Lemma anr_initializeModel name w : adds_no_ready w (_initializeModel name w).1.
Proof.
  unfold _initializeModel. destruct (_completionModels w !! name); simpl; [anr |].
  apply (anr_post (Initiate name)). discriminate.
Qed.

Lemma anr_handleMessage m w : adds_no_ready w (handleMessage m w).
Proof.
  destruct m as [| | name | name | data |]; simpl; try anr.
  - pose proof (anr_initializeModel name w) as H.
    destruct (_initializeModel name w) as [w' h]. simpl in H.
    eapply anr_trans; [exact H | apply anr_attach].
  - unfold _disposeModel. destruct (_completionModels w !! name); [| anr].
    eapply anr_trans; [| apply anr_attach]. anr.
  - unfold _generate. destruct (_sharedArray w); [| anr].
    pose proof (anr_initializeModel (g_model data) w) as H.
    destruct (_initializeModel (g_model data) w) as [w' h]. simpl in H.
    eapply anr_trans; [exact H | apply anr_attach].
Qed.

Lemma anr_step w e : adds_no_ready w (step w e).
Proof.
  destruct e as [m | v | h report | h failure | t failure | t choices | t | t e];
    simpl.
  - apply anr_handleMessage.
  - anr.
  - unfold on_progress. destruct (handleOf w h); [| anr].
    eapply anr_trans; [| apply anr_post; discriminate]. anr.
  - unfold on_settled. destruct (handleOf w h) as [[name [rs| |e]]|]; simpl; try anr.
    destruct failure as [e|].
    + eapply anr_trans; [| apply anr_fold; intros; apply anr_react_failed]. anr.
    + eapply anr_trans; [| apply anr_fold; intros; apply anr_react_loaded]. anr.
  - destruct (tasks w !! t) as [[data h output|data h output|]|]; try anr.
    destruct failure as [e|]; [| anr].
    eapply anr_trans; [apply anr_on_catch | apply anr_finish].
  - destruct (tasks w !! t) as [[data h output|data h output|]|]; try anr.
    apply anr_on_chunk.
  - destruct (tasks w !! t) as [[data h output|data h output|]|]; try anr.
    apply anr_finish.
  - destruct (tasks w !! t) as [[data h output|data h output|]|]; try anr.
    eapply anr_trans; [apply anr_on_catch | apply anr_finish].
Qed.

(** Whatever the worker receives and whatever web-llm does, no [ready]
    message is ever posted. *)
Lemma never_ready (events : list Event) (m : string) :
  Ready m ∉ posted (run initial events).
Proof.
  assert (adds_no_ready initial (run initial events)) as (ms & E & H).
  { unfold run. apply anr_fold. apply anr_step. }
  rewrite E. intros [Hin | Hin]%elem_of_app; [| by eapply H].
  apply elem_of_cons in Hin as [Hin | Hin]; [done | by apply elem_of_nil in Hin].
Qed.

(** *** Repeated [initializeModel] *)

Lemma run_initializeModel (name : string) (k : nat) :
  run initial (replicate (S k) (Message (InitializeModel name))) = initialized name k.
Proof.
  induction k as [|k IH]; [reflexivity |].
  rewrite replicate_S_end. unfold run in *. rewrite fold_left_app, IH.
  simpl. unfold _initializeModel. simpl. rewrite lookup_insert_eq.
  unfold attach, handleOf, set_instance, initialized. simpl.
  do 4 f_equal. by rewrite <- replicate_S_end.
Qed.

Lemma loaded_catches (h : nat) (name : string) (k : nat) (w : State) :
  fold_left (fun w r => react_loaded h name r w) (replicate k PostException) w = w.
Proof. induction k as [|k IH]; [done | exact IH]. Qed.

(** C6 on the code.  After any number of [initializeModel] messages for
    one model and the end of its load, the worker has called
    [CreateEngine] once and posted one [initiate] and one [done], and
    that is all it has posted: there is no [ready]. *)
Theorem repeated_initializeModel_posts_no_ready (name : string) (n : nat) :
  let w := run initial
             (replicate (S n) (Message (InitializeModel name)) ++ [LoadSettled 0 None]) in
  posted w = [WorkerStarted; Initiate name; Done name] /\
  engine w = [CreateEngine name] /\
  _completionModels w !! name = Some 0.
Proof.
  intros w. subst w. unfold run. rewrite fold_left_app.
  change (fold_left step (replicate (S n) (Message (InitializeModel name))) initial)
    with (run initial (replicate (S n) (Message (InitializeModel name)))).
  rewrite run_initializeModel. simpl. unfold on_settled. simpl.
  rewrite loaded_catches. simpl. by rewrite lookup_insert_eq.
Qed.

(** *** Concrete runs *)

Import Scenario.

Lemma load_failure_aborts_witness :
  let w1 := step bound_worker (Message (Generate request)) in
  let w2 := step w1 (LoadSettled 0 (Some no_webgpu)) in
  (exists k, posted w2 =
     posted w1 ++ replicate (S k) (Exception None (Some "WebGPU is not supported"))) /\
  tasks w2 = tasks bound_worker /\
  (posted w1 = posted bound_worker \/
   posted w1 = posted bound_worker ++ [Initiate llama]).
Proof.
  apply (load_failure_aborts bound_worker request no_webgpu 0 llama
           [PostDone; ResumeGenerate request]); reflexivity.
Defined.

(** C4 as stated fails.  The load of the model of [request] fails: the
    one [exception] message that the worker posts carries no tokens, so
    none of its messages is an [exception] with the tokens T1 and T2 of
    the request. *)
Lemma load_failure_carries_no_tokens :
  let w := run bound_worker
             [ Message (Generate request); LoadSettled 0 (Some no_webgpu) ] in
  posted w = [ WorkerStarted; Initiate llama;
               Exception None (Some "WebGPU is not supported") ] /\
  ~ exists error, Exception (Some (g_idTokens request)) error ∈ posted w.
Proof.
  split; [reflexivity |]. intros [error Hin]. vm_compute in Hin.
  repeat (apply elem_of_cons in Hin as [Hin | Hin]; [discriminate |]).
  by apply elem_of_nil in Hin.
Qed.

(** C2 on the code.  The stream for [request] (prompt ["# Plan"])
    delivers one chunk and ends normally.  The two [update] messages
    carry the outputs without the prompt; then the last loop throws at
    its first turn: the task is over, the console shows the rejection,
    and no [complete] message was posted. *)
Theorem stream_end_posts_no_complete :
  let w := run streaming [ Chunk 0 [Some "# Plan: ship"; Some "# Plan B"]; StreamEnd 0 ] in
  posted w = posted streaming ++ [ Update "T1" ": ship"; Update "T2" " B" ] /\
  tasks w = [Over] /\
  last (console w) =
    Some (UnhandledRejection "Cannot read properties of undefined (reading 'substring')") /\
  forall tok output, Complete tok output ∉ posted w.
Proof.
  split; [reflexivity |]. split; [reflexivity |]. split; [reflexivity |].
  intros tok output Hin. vm_compute in Hin.
  repeat (apply elem_of_cons in Hin as [Hin | Hin]; [discriminate |]).
  by apply elem_of_nil in Hin.
Qed.

End WorkerFacts.

(** ** Provider and worker together *)

Module ProtocolFacts.
Import Scenario.

(** The request that [_generate] hands to web-llm takes the prompt, the
    number of candidates and the sampling parameters from the message, and
    its system message from a constant. *)
Lemma requestOf_fields (data : IGenerate) :
  Worker.messages (Worker.requestOf data) =
    [ (Worker.system, Worker.pirate); (Worker.user, g_text data) ] /\
  Worker.n (Worker.requestOf data) = length (g_idTokens data) /\
  Worker.temperature (Worker.requestOf data) = g_temperature data /\
  Worker.top_p (Worker.requestOf data) = g_top_p data /\
  Worker.frequency_penalty (Worker.requestOf data) = g_frequency_penalty data /\
  Worker.presence_penalty (Worker.requestOf data) = g_presence_penalty data /\
  Worker.max_gen_len (Worker.requestOf data) = g_max_gen_len data.
Proof. by repeat split. Qed.

(** The message of [fetch] never has [max_gen_len]. *)
Lemma generateMessage_max_gen_len c k prefix idTokens :
  g_max_gen_len (Provider.generateMessage c k prefix idTokens) = None.
Proof. reflexivity. Qed.

(** C7 on the code.  A [fetch] with the default settings ([max_gen_len]
    512) on a ready model posts the message [request], which carries the
    system prompt of the provider, the temperature, [top_p] and the
    penalties, and no [max_gen_len]; the request that the worker builds
    from it has the constant pirate prompt as system message and no
    [max_gen_len]. *)
Theorem generate_drops_systemPrompt_and_max_gen_len :
  let c := Provider.run ready_provider [ Provider.CallFetch markdown ] in
  let r := Worker.requestOf request in
  Provider.generated c = [request] /\
  Provider.max_gen_len (Provider._settings c) = Some 512%Q /\
  g_max_gen_len request = None /\
  Worker.max_gen_len r = None /\
  g_systemPrompt request = "You are a completion model generating Markdown suggestions" /\
  Worker.messages r =
    [ (Worker.system, "You are a pirate chatbot who always responds in pirate speak!");
      (Worker.user, "# Plan") ] /\
  Worker.n r = 2 /\
  Worker.temperature r = Provider.temperature (Provider._settings c).
Proof. vm_compute. by repeat split. Qed.

End ProtocolFacts.
(** ** More on the provider *)

Module ProviderMore.
Import Provider ProviderViews ProviderShapes ProviderFacts.

(** *** The prefix sent to the model *)

Lemma length_slice_to (n : nat) (s : string) :
  String.length (Js.slice_to n s) = Nat.min n (String.length s).
Proof.
  revert s. induction n as [|n IH]; intros [|a s]; simpl; try done.
  by rewrite IH.
Qed.

Lemma length_substring (n : nat) (s : string) :
  String.length (Js.substring n s) = String.length s - n.
Proof.
  revert s. induction n as [|n IH]; intros [|a s]; simpl; rewrite ?IH; lia.
Qed.

Lemma slice_to_substring (n : nat) (s : string) :
  (Js.slice_to n s ++ Js.substring n s)%string = s.
Proof.
  revert s. induction n as [|n IH]; intros [|a s]; try reflexivity.
  change (String a (Js.slice_to n s ++ Js.substring n s)%string = String a s).
  by rewrite IH.
Qed.

(** X1. With a context window of at least one character, the prefix that
    [fetch] sends is the end of the text before the cursor, cut to the
    window: its length is the smallest of the window, the offset and the
    length of the text. *)
Theorem prefix_within_window (c : State) (request : IRequest) :
  0 < maxContextWindow (_settings c) ->
  let before := Js.slice_to (offset request) (r_text request) in
  let prefix := _prefixFromRequest c request in
  String.length prefix =
    Nat.min (maxContextWindow (_settings c))
      (Nat.min (offset request) (String.length (r_text request))) /\
  exists skipped, before = (skipped ++ prefix)%string.
Proof.
  intros Hw before prefix. subst prefix. unfold _prefixFromRequest. fold before.
  rewrite <- (length_slice_to (offset request) (r_text request)). fold before.
  unfold Js.slice_last.
  destruct (Nat.min _ (String.length before)) as [|k] eqn:E.
  - split; [lia |]. by exists "".
  - split.
    + rewrite length_substring. lia.
    + eexists. symmetry. apply slice_to_substring.
Qed.

Lemma prefix_within_window_witness :
  let c := set_settings initial
             {| codeModel := "none"; textModel := Scenario.llama;
                temperature := None; top_p := None; generateN := 1;
                max_gen_len := None; frequency_penalty := None;
                presence_penalty := None; repetition_penalty := None;
                maxContextWindow := 4 |} in
  let request := {| r_text := "# Plan for today"; offset := 6;
                    mimeType := Some "text/x-markdown" |} in
  _prefixFromRequest c request = "Plan" /\
  String.length (_prefixFromRequest c request) = 4 /\
  exists skipped, "# Plan" = (skipped ++ _prefixFromRequest c request)%string.
Proof.
  intros c request. split; [reflexivity |].
  apply (prefix_within_window c request). simpl. lia.
Defined.

(** *** Switching models *)

Lemma currentModel_switchModel (m : string) (ty : ContentType) (c : State) :
  currentModel (_switchModel m ty c) ty = Some m.
Proof.
  unfold _switchModel. case_decide as Hold; [done |].
  destruct ty, (currentModel c _) as [old|]; try destruct (truthy old);
    case_decide; reflexivity.
Qed.

Lemma currentModel_switchModel_text (m : string) (c : State) :
  currentModel (_switchModel m text c) code = currentModel c code.
Proof.
  unfold _switchModel. case_decide as Hold; [done |].
  destruct (currentModel c text) as [old|]; try destruct (truthy old);
    case_decide; reflexivity.
Qed.

(** X2. Switching a content class to the model it already has does
    nothing: a second [_switchModel] with the same arguments leaves the
    state, and so the outbox, as the first one made it. *)
Theorem switchModel_idempotent (m : string) (ty : ContentType) (c : State) :
  _switchModel m ty (_switchModel m ty c) = _switchModel m ty c.
Proof.
  unfold _switchModel at 1. rewrite currentModel_switchModel.
  by rewrite decide_True.
Qed.

Lemma configure_resume_idempotent (c : State) :
  configure_resume (configure_resume c) = configure_resume c.
Proof.
  unfold configure_resume at 1.
  pose proof (conf_configure_resume c) as Hc. unfold conf in Hc.
  injection Hc as _ Hs. rewrite !Hs.
  assert (currentModel (configure_resume c) code = Some (codeModel (_settings c)) /\
          currentModel (configure_resume c) text = Some (textModel (_settings c)))
    as [Hcode Htext].
  { unfold configure_resume.
    rewrite currentModel_switchModel_text, !currentModel_switchModel.
    pose proof (conf_switchModel (codeModel (_settings c)) code c) as Hc1.
    unfold conf in Hc1. by injection Hc1 as _ ->. }
  set (c2 := configure_resume c) in *.
  assert (_switchModel (codeModel (_settings c)) code c2 = c2) as ->.
  { unfold _switchModel. by rewrite Hcode, decide_True. }
  rewrite Hs. unfold _switchModel. by rewrite Htext, decide_True.
Qed.

Lemma configure_resume_iter (n : nat) (c : State) :
  Nat.iter (S n) configure_resume c = configure_resume c.
Proof.
  induction n as [|n IH]; [done |].
  change (Nat.iter (S (S n)) configure_resume c)
    with (configure_resume (Nat.iter (S n) configure_resume c)).
  by rewrite IH, configure_resume_idempotent.
Qed.

Lemma configures_wait (settings : list ISettings) (last_settings : ISettings)
    (c : State) (n : nat) :
  _workerStarted c = NotStarted n ->
  run c (map CallConfigure (settings ++ [last_settings])) =
    set_workerStarted (set_settings c last_settings)
      (NotStarted (S (length settings) + n)).
Proof.
  revert c n. induction settings as [|s settings IH]; intros c n Hn.
  - simpl. unfold configure. simpl. by rewrite Hn.
  - change (run c (map CallConfigure ((s :: settings) ++ [last_settings])))
      with (run (configure s c) (map CallConfigure (settings ++ [last_settings]))).
    unfold configure. simpl. rewrite Hn.
    rewrite (IH _ (S n)) by done. simpl. do 2 f_equal. lia.
Qed.

(** X3. However many times [configure] is called before the worker has
    started, nothing is posted until [worker-started] arrives; then the
    provider posts [initializeBuffer] and switches the models once, for
    the settings of the last call. *)
Theorem configures_before_start_collapse (settings : list ISettings)
    (last_settings : ISettings) (c : State) :
  _workerStarted c = NotStarted 0 ->
  let waiting := run c (map CallConfigure (settings ++ [last_settings])) in
  posted waiting = posted c /\
  step waiting (Receive WorkerStarted) =
    configure_resume
      (_postMessage InitializeBuffer
         (set_workerStarted (set_settings c last_settings) Started)).
Proof.
  intros Hn waiting. subst waiting.
  rewrite (configures_wait settings last_settings c 0 Hn).
  split; [reflexivity |]. simpl. unfold _msgWorkerStarted. simpl.
  rewrite Nat.add_0_r.
  exact (configure_resume_iter (length settings) _).
Qed.

Lemma configures_before_start_collapse_witness :
  let other := {| codeModel := "none"; textModel := "none";
                  temperature := None; top_p := None; generateN := 1;
                  max_gen_len := None; frequency_penalty := None;
                  presence_penalty := None; repetition_penalty := None;
                  maxContextWindow := 4 |} in
  let waiting := run initial (map CallConfigure ([other; other] ++ [DEFAULT_SETTINGS])) in
  posted waiting = posted initial /\
  step waiting (Receive WorkerStarted) =
    configure_resume
      (_postMessage InitializeBuffer
         (set_workerStarted (set_settings initial DEFAULT_SETTINGS) Started)).
Proof.
  intros other. apply (configures_before_start_collapse [other; other]).
  reflexivity.
Defined.

(** *** The outbox *)

Lemma wire_msgInterrupted l c : wire (_msgInterrupted l c) = wire c.
Proof.
  unfold _msgInterrupted. revert c.
  induction l as [|tok l IH]; intros c; simpl; [done |].
  rewrite IH. unfold interrupt_one. by case_match.
Qed.

Lemma wire_next g c : wire (next g c) = wire c.
Proof. unfold next. by repeat case_match. Qed.

Lemma wire_resumes ks c :
  exists ms, wire (resumes ks c) = (_workerStarted c, posted c ++ ms) /\
             Forall is_generate ms.
Proof.
  revert c. induction ks as [|k ks IH]; intros c; simpl.
  - exists []. by rewrite app_nil_r.
  - destruct (IH (fetch_resume k c)) as (ms & -> & Hms).
    unfold fetch_resume. cbn -[mint Js.ToInt32]. rewrite mint_eq. cbn -[Js.ToInt32].
    eexists (_ :: ms). rewrite <- app_assoc. split; [reflexivity |].
    by constructor.
Qed.

Lemma switchModel_posts m ty c :
  exists ms, wire (_switchModel m ty c) = (_workerStarted c, posted c ++ ms) /\
             Forall routine ms.
Proof.
  unfold _switchModel. case_decide.
  { exists []. by rewrite app_nil_r. }
  destruct ty, (currentModel c _) as [old|]; try destruct (truthy old);
    case_decide; unfold wire; simpl; rewrite <- ?app_assoc; simpl;
      eexists; (split; [reflexivity || (by rewrite app_nil_r) |]);
      repeat constructor; done.
Qed.

Lemma configure_resume_posts c :
  exists ms, wire (configure_resume c) = (_workerStarted c, posted c ++ ms) /\
             Forall routine ms.
Proof.
  unfold configure_resume.
  destruct (switchModel_posts (codeModel (_settings c)) code c) as (ms1 & E1 & H1).
  set (c1 := _switchModel (codeModel (_settings c)) code c) in *.
  destruct (switchModel_posts (textModel (_settings c1)) text c1) as (ms2 & E2 & H2).
  unfold wire in *. injection E1 as E1s E1p.
  exists (ms1 ++ ms2). rewrite E2, E1s, E1p, app_assoc.
  split; [done |]. by apply Forall_app.
Qed.

Lemma iter_configure_resume_posts n c :
  exists ms, wire (Nat.iter n configure_resume c) = (_workerStarted c, posted c ++ ms) /\
             Forall routine ms.
Proof.
  induction n as [|n (ms & E & Hms)]; simpl.
  - exists []. by rewrite app_nil_r.
  - destruct (configure_resume_posts (Nat.iter n configure_resume c)) as (ms' & E' & Hms').
    unfold wire in *. injection E as Es Ep.
    exists (ms ++ ms'). rewrite E', Es, Ep, app_assoc.
    split; [done |]. by apply Forall_app.
Qed.

(** Apart from [worker-started] and [configure], a turn of the loop
    leaves the connection as it is and posts [generate] messages only. *)
Lemma step_posts_generate c e :
  e <> Receive WorkerStarted ->
  (forall s, e <> CallConfigure s) ->
  exists ms, wire (step c e) = (_workerStarted c, posted c ++ ms) /\
             Forall is_generate ms.
Proof.
  intros Hw Hc.
  assert (forall c', wire c' = wire c ->
            exists ms, wire c' = (_workerStarted c, posted c ++ ms) /\
                       Forall is_generate ms) as Hsame.
  { intros c' ->. exists []. by rewrite app_nil_r. }
  destruct e as [data | settings | request | tok | g]; simpl.
  - destruct data; simpl; try (apply Hsame; reflexivity); try done.
    + apply Hsame. unfold _msgInitiate. by case_match.
    + unfold _msgReady. cbn.
      destruct (_ready c !! model) as [[|waiters]|]; try (apply Hsame; reflexivity).
      apply (wire_resumes waiters (set_ready (log _ c) _)).
    + apply Hsame. unfold _msgUpdate. by case_match.
    + apply Hsame. unfold _msgComplete. by case_match.
    + apply Hsame, wire_msgInterrupted.
  - by destruct (Hc settings).
  - unfold fetch. destruct (_ready c !! _) as [[|waiters]|];
      try (apply Hsame; reflexivity).
    apply (wire_resumes [_] c).
  - apply Hsame. reflexivity.
  - apply Hsame, wire_next.
Qed.

Lemma is_generate_routine m : is_generate m -> routine m.
Proof. by destruct m. Qed.

Lemma outbox_shape_step c e : outbox_shape c -> outbox_shape (step c e).
Proof.
  intros Hc.
  assert (forall c' ms, wire c' = (_workerStarted c, posted c ++ ms) ->
            Forall routine ms ->
            (_workerStarted c <> Started -> Forall is_generate ms) ->
            outbox_shape c') as Hext.
  { intros c' ms E Hr Hg. unfold wire in E. injection E as Es Ep.
    unfold outbox_shape in *. rewrite Es, Ep.
    destruct (_workerStarted c).
    - destruct Hc as (before & after & -> & Hb & Ha).
      exists before, (after ++ ms). rewrite <- app_assoc. simpl.
      split; [done |]. split; [done |]. by apply Forall_app.
    - apply Forall_app. split; [done |]. by apply Hg. }
  destruct e as [[]| settings | | |];
    try (edestruct (step_posts_generate c) as (ms & E & Hms);
         [| | eapply (Hext _ ms E);
              [eapply Forall_impl; [exact Hms | apply is_generate_routine] | done]];
         [discriminate | discriminate]).
  - simpl. unfold _msgWorkerStarted. unfold outbox_shape in Hc.
    destruct (_workerStarted c) as [|n] eqn:Es; [by unfold outbox_shape; rewrite Es |].
    destruct (iter_configure_resume_posts n
                (_postMessage InitializeBuffer (set_workerStarted c Started)))
      as (ms & E & Hms).
    unfold wire in E. injection E as Es' Ep. unfold outbox_shape. rewrite Es', Ep.
    simpl. exists (posted c), ms. rewrite <- app_assoc. done.
  - simpl. unfold configure. simpl.
    destruct (_workerStarted c) as [|n] eqn:Es.
    + destruct (configure_resume_posts (set_settings c settings)) as (ms & E & Hms).
      apply (Hext _ ms); [by rewrite E; simpl; rewrite Es | done | done].
    + unfold outbox_shape in *. simpl. by rewrite Es in Hc.
Qed.

Lemma outbox_shape_run (events : list Event) (c : State) :
  outbox_shape c -> outbox_shape (run c events).
Proof.
  revert c. induction events as [|e events IH]; intros c Hc; [done |].
  simpl. by apply IH, outbox_shape_step.
Qed.

(** X4. Along every run from the initial state the outbox has this
    shape: while the worker has not reported [worker-started], only
    [generate] messages; afterwards exactly one [initializeBuffer], and
    every [initializeModel] and [disposeModel] comes after it.  The
    provider never posts [configure]. *)
Theorem outbox_has_one_initializeBuffer (events : list Event) :
  match _workerStarted (run initial events) with
  | NotStarted _ => Forall is_generate (posted (run initial events))
  | Started =>
      exists before after,
        posted (run initial events) = before ++ InitializeBuffer :: after /\
        Forall is_generate before /\ Forall routine after
  end.
Proof. apply (outbox_shape_run events initial). by constructor. Qed.

(** X5. The sentinel ['none'] never reaches the worker as a model to
    load: no run of the provider posts [initializeModel] for it. *)
Theorem none_is_never_initialized (events : list Event) :
  InitializeModel "none" ∉ posted (run initial events).
Proof.
  assert (outbox_shape (run initial events)) as Hs
    by (apply outbox_shape_run; by constructor).
  unfold outbox_shape in Hs. intros Hin.
  assert (forall l, Forall routine l -> InitializeModel "none" ∉ l) as Hr.
  { intros l Hl Hin'. rewrite Forall_forall in Hl. by apply Hl in Hin'. }
  assert (forall l, Forall is_generate l -> InitializeModel "none" ∉ l) as Hg.
  { intros l Hl Hin'. rewrite Forall_forall in Hl. by apply Hl in Hin'. }
  destruct (_workerStarted (run initial events)).
  - destruct Hs as (before & after & E & Hb & Ha). rewrite E in Hin.
    apply elem_of_app in Hin as [Hin | Hin]; [by eapply Hg |].
    apply elem_of_cons in Hin as [Hin | Hin]; [done | by eapply Hr].
  - by eapply Hg.
Qed.

(** *** What a [fetch] returns *)

Lemma epoch_resumes ks c :
  _currentGeneration (resumes ks c) = length ks + _currentGeneration c.
Proof.
  revert c. induction ks as [|k ks IH]; intros c; [done |].
  change (resumes (k :: ks) c) with (resumes ks (fetch_resume k c)).
  rewrite IH. destruct (fetch_resume_books k c) as (d & items & Hb & _).
  unfold books in Hb. injection Hb as -> _ _ _. simpl. lia.
Qed.

Lemma fetch_on_ready (c : State) (request : IRequest) :
  _ready c !! selectedModel c request = Some ReadyResolved ->
  exists c' ids d,
    fetch request c = (c', Returned (map placeholder ids)) /\
    length ids = generateN (_settings c) /\
    posted c' = posted c ++ [Generate d] /\
    g_idTokens d = ids /\
    g_generateN d = generateN (_settings c) /\
    g_model d = selectedModel c request /\
    g_text d = _prefixFromRequest c request /\
    g_counter d = S (_currentGeneration c) /\
    _streamPromises c' = ∅.
Proof.
  intros Hready. unfold fetch. rewrite Hready.
  unfold fetch_resume. cbn -[mint Js.ToInt32 _prefixFromRequest].
  rewrite mint_eq. cbn -[Js.ToInt32 _prefixFromRequest].
  eexists _, (map tokenOf (seq (S (_tokenCounter c)) (generateN (_settings c)))), _.
  split.
  { rewrite last_snoc, map_map. reflexivity. }
  split.
  { by rewrite length_map, length_seq. }
  by repeat split.
Qed.

(** X6. A [fetch] on a model that is ready returns at once as many
    placeholders as the setting [generateN] says, each with empty text,
    marked incomplete and carrying its token; the [generate] message it
    posts names the selected model, the prefix of the request, the same
    tokens in the same order, and the epoch just stepped to; the map of
    stream delegates is empty afterwards. *)
Theorem fetch_returns_placeholders (c : State) (request : IRequest) :
  _ready c !! selectedModel c request = Some ReadyResolved ->
  exists c' ids d,
    fetch request c = (c', Returned (map placeholder ids)) /\
    length ids = generateN (_settings c) /\
    posted c' = posted c ++ [Generate d] /\
    g_idTokens d = ids /\
    g_generateN d = generateN (_settings c) /\
    g_model d = selectedModel c request /\
    g_text d = _prefixFromRequest c request /\
    g_counter d = S (_currentGeneration c) /\
    _streamPromises c' = ∅.
Proof. apply fetch_on_ready. Qed.

Lemma fetch_returns_placeholders_witness :
  exists c' ids d,
    fetch Scenario.markdown Scenario.ready_provider = (c', Returned (map placeholder ids)) /\
    length ids = 2 /\
    posted c' = posted Scenario.ready_provider ++ [Generate d] /\
    g_idTokens d = ids /\
    g_generateN d = 2 /\
    g_model d = Scenario.llama /\
    g_text d = "# Plan" /\
    g_counter d = 1 /\
    _streamPromises c' = ∅.
Proof.
  apply (fetch_returns_placeholders Scenario.ready_provider Scenario.markdown).
  reflexivity.
Defined.

(** X7. When [ready] arrives for a model, every [fetch] call that was
    waiting for it returns in that turn: there is one more returned call
    and one more epoch per waiting call, and the model is ready from then
    on. *)
Theorem ready_resumes_waiting_fetches (c : State) (m : string)
    (waiters : list FetchCont) :
  _ready c !! m = Some (ReadyPending waiters) ->
  let c' := step c (Receive (Ready m)) in
  _ready c' !! m = Some ReadyResolved /\
  length (returned c') = length (returned c) + length waiters /\
  _currentGeneration c' = _currentGeneration c + length waiters.
Proof.
  intros Hm c'. subst c'. simpl. unfold _msgReady. cbn. rewrite Hm.
  set (c0 := set_ready _ _).
  change (fold_left (fun c k => fetch_resume k c) waiters c0) with (resumes waiters c0).
  pose proof (conf_resumes waiters c0) as Hc. unfold conf in Hc. injection Hc as -> _.
  rewrite returned_resumes, epoch_resumes. subst c0. simpl.
  rewrite lookup_insert_eq. split; [done |]. lia.
Qed.

Lemma ready_resumes_waiting_fetches_witness :
  let c := run initial [ Receive (Initiate Scenario.llama);
                         CallFetch Scenario.markdown; CallFetch Scenario.markdown ] in
  let c' := step c (Receive (Ready Scenario.llama)) in
  length (returned c) = 0 /\
  _ready c' !! Scenario.llama = Some ReadyResolved /\
  length (returned c') = 2 /\
  _currentGeneration c' = 2.
Proof.
  intros c c'. split; [reflexivity |].
  pose (k := {| k_model := Scenario.llama; k_isText := true;
                k_request := Scenario.markdown |}).
  apply (ready_resumes_waiting_fetches c Scenario.llama [k; k]). reflexivity.
Defined.

(** X8. A second [initiate] for a model replaces its readiness promise:
    the [fetch] calls that were waiting on the first one are not resumed
    by the [ready] that follows, so nothing returns and the epoch stays. *)
Theorem reinitiate_drops_waiting_fetches (c : State) (m : string) :
  let c' := run c [ Receive (Initiate m); Receive (Ready m) ] in
  returned c' = returned c /\
  _currentGeneration c' = _currentGeneration c /\
  posted c' = posted c /\
  _ready c' !! m = Some ReadyResolved.
Proof.
  simpl. set (c1 := _msgInitiate m c).
  assert (_ready c1 !! m = Some (ReadyPending []) /\ returned c1 = returned c /\
          _currentGeneration c1 = _currentGeneration c /\ posted c1 = posted c)
    as (Hr & <- & <- & <-).
  { subst c1. unfold _msgInitiate.
    case_match; repeat split; apply lookup_insert_eq. }
  unfold _msgReady. cbn. rewrite Hr. repeat split. apply lookup_insert_eq.
Qed.

(** *** Streams *)



Lemma lookup_armed (g : nat) (tok : string) (c : State) :
  g < length (generators c) ->
  let c' := arm g tok c in
  generators c' !! g = Some (tok, AtYield (length (delegates c))) /\
  _streamPromises c' !! tok = Some (length (delegates c)) /\
  delegates c' !! length (delegates c) = Some Pending.
Proof.
  intros Hg. unfold arm, fresh_delegate. simpl. split; [| split].
  - by apply list_lookup_insert_eq.
  - apply lookup_insert_eq.
  - by rewrite lookup_app_r, Nat.sub_diag.
Qed.

Lemma next_fresh (g : nat) (tok : string) (c : State) :
  generators c !! g = Some (tok, Fresh) -> next g c = arm g tok c.
Proof. intros Hg. unfold next. by rewrite Hg. Qed.

Lemma update_fields (tok output : string) (c : State) (a : nat) :
  _streamPromises c !! tok = Some a ->
  delegates c !! a = Some Pending ->
  generators (_msgUpdate tok output c) = generators c /\
  _streamPromises (_msgUpdate tok output c) = _streamPromises c /\
  delegates (_msgUpdate tok output c) =
    <[a := Resolved (chunk_of false output)]> (delegates c).
Proof.
  intros Hm Hd. unfold _msgUpdate. cbn -[Js.ToInt32]. rewrite Hm. cbn -[Js.ToInt32].
  unfold resolve. by rewrite Hd.
Qed.

Lemma complete_fields (tok output : string) (c : State) (a : nat) :
  _streamPromises c !! tok = Some a ->
  delegates c !! a = Some Pending ->
  generators (_msgComplete tok output c) = generators c /\
  _streamPromises (_msgComplete tok output c) = delete tok (_streamPromises c) /\
  delegates (_msgComplete tok output c) =
    <[a := Resolved (chunk_of true output)]> (delegates c).
Proof.
  intros Hm Hd. unfold _msgComplete. rewrite Hm. simpl. unfold resolve. by rewrite Hd.
Qed.

Lemma observe_resolved (c : State) (g : nat) (tok : string) (a : nat) (v : IStream) :
  generators c !! g = Some (tok, AtYield a) ->
  delegates c !! a = Some (Resolved v) ->
  observe c g = Some (Yielded v).
Proof. intros Hg Ha. unfold observe. by rewrite Hg, Ha. Qed.

(** X10. A stream that is pulled for the first time and then receives an
    [update] for its token hands its consumer exactly the text of that
    message, with [done] false. *)
Theorem update_reaches_first_pull (c : State) (g : nat) (tok output : string) :
  generators c !! g = Some (tok, Fresh) ->
  observe (run c [ CallNext g; Receive (Update tok output) ]) g
  = Some (Yielded (chunk_of false output)).
Proof.
  intros Hg.
  change (run c [CallNext g; Receive (Update tok output)])
    with (_msgUpdate tok output (next g c)).
  rewrite (next_fresh g tok c Hg).
  destruct (lookup_armed g tok c) as (Hg' & Hm & Hd).
  { by eapply lookup_lt_Some. }
  destruct (update_fields tok output _ _ Hm Hd) as (Eg & _ & Ed).
  eapply observe_resolved.
  - rewrite Eg. exact Hg'.
  - rewrite Ed. apply list_lookup_insert_eq. by eapply lookup_lt_Some.
Qed.

Lemma update_reaches_first_pull_witness :
  observe (run (stream "T2" Scenario.pulling)
             [ CallNext 1; Receive (Update "T2" " of attack") ]) 1
  = Some (Yielded (chunk_of false " of attack")).
Proof. apply update_reaches_first_pull. reflexivity. Defined.

(** X11. A [complete] message ends the stream of its token: the pending
    pull gets the text with [done] true, the entry of the token is
    removed, and the next pull finds the stream ended. *)
Theorem complete_ends_stream (c : State) (g : nat) (tok output : string) :
  generators c !! g = Some (tok, Fresh) ->
  let c1 := run c [ CallNext g; Receive (Complete tok output) ] in
  observe c1 g = Some (Yielded (chunk_of true output)) /\
  _streamPromises c1 !! tok = None /\
  observe (step c1 (CallNext g)) g = Some Ended.
Proof.
  intros Hg c1. subst c1.
  change (run c [CallNext g; Receive (Complete tok output)])
    with (_msgComplete tok output (next g c)).
  change (step ?x (CallNext g)) with (next g x).
  rewrite (next_fresh g tok c Hg).
  destruct (lookup_armed g tok c) as (Hg' & Hm & Hd).
  { by eapply lookup_lt_Some. }
  destruct (complete_fields tok output _ _ Hm Hd) as (Eg & Em & Ed).
  set (c2 := _msgComplete tok output (arm g tok c)) in *. clearbody c2.
  assert (delegates c2 !! length (delegates c) = Some (Resolved (chunk_of true output)))
    as Hd2.
  { rewrite Ed. apply list_lookup_insert_eq. by eapply lookup_lt_Some. }
  assert (generators c2 !! g = Some (tok, AtYield (length (delegates c)))) as Hg2
    by by rewrite Eg.
  split; [| split].
  - by eapply observe_resolved.
  - rewrite Em. apply lookup_delete_eq.
  - unfold next. rewrite Hg2, Hd2. simpl. unfold observe. simpl.
    rewrite list_lookup_insert_eq; [done |]. by eapply lookup_lt_Some.
Qed.

Lemma complete_ends_stream_witness :
  let c1 := run (stream "T2" Scenario.pulling)
              [ CallNext 1; Receive (Complete "T2" " of attack") ] in
  observe c1 1 = Some (Yielded (chunk_of true " of attack")) /\
  _streamPromises c1 !! "T2" = None /\
  observe (step c1 (CallNext 1)) 1 = Some Ended.
Proof. apply complete_ends_stream. reflexivity. Defined.

(** *** Two streams for one token *)

Lemma shrinks_refl c : shrinks c c.
Proof. by repeat split. Qed.

Lemma shrinks_trans c1 c2 c3 : shrinks c1 c2 -> shrinks c2 c3 -> shrinks c1 c3.
Proof.
  intros (H1 & H2 & H3) (H1' & H2' & H3'). split; [| split]; [| congruence..].
  by etrans.
Qed.

Lemma shrinks_pulls c c' : pulls c' = pulls c -> shrinks c c'.
Proof. unfold pulls. intros [= E1 E2 E3]. unfold shrinks. by rewrite E1, E2, E3. Qed.

Lemma length_resolve a v ds : length (resolve a v ds) = length ds.
Proof. unfold resolve. repeat case_match; by rewrite ?length_insert. Qed.

Lemma length_reject a ds : length (reject a ds) = length ds.
Proof. unfold reject. repeat case_match; by rewrite ?length_insert. Qed.

Lemma shrinks_msgInterrupted l c : shrinks c (_msgInterrupted l c).
Proof.
  unfold _msgInterrupted. revert c.
  induction l as [|tok l IH]; intros c; simpl; [apply shrinks_refl |].
  eapply shrinks_trans; [| apply IH]. unfold interrupt_one, shrinks.
  destruct (_streamPromises c !! tok); simpl; rewrite ?length_reject;
    (split; [apply delete_subseteq | done]).
Qed.

Lemma shrinks_resumes ks c : shrinks c (resumes ks c).
Proof.
  revert c. induction ks as [|k ks IH]; intros c; simpl; [apply shrinks_refl |].
  eapply shrinks_trans; [| apply IH]. unfold fetch_resume.
  cbn -[mint Js.ToInt32]. rewrite mint_eq. unfold shrinks. simpl.
  split; [apply map_empty_subseteq | done].
Qed.

Lemma shrinks_receive data c : shrinks c (_onMessageReceived data c).
Proof.
  destruct data; simpl; try (apply shrinks_pulls; reflexivity).
  - apply shrinks_pulls, pulls_msgWorkerStarted.
  - apply shrinks_pulls. unfold _msgInitiate. by case_match.
  - unfold _msgReady. cbn.
    destruct (_ready c !! model) as [[|waiters]|]; try (apply shrinks_pulls; reflexivity).
    eapply shrinks_trans; [| apply (shrinks_resumes waiters)].
    apply shrinks_pulls; reflexivity.
  - unfold _msgUpdate, shrinks. cbn -[Js.ToInt32].
    destruct (_streamPromises c !! idToken); simpl; by rewrite ?length_resolve.
  - unfold _msgComplete, shrinks.
    destruct (_streamPromises c !! idToken); simpl; rewrite ?length_resolve;
      (split; [apply delete_subseteq | done]).
  - apply shrinks_msgInterrupted.
Qed.

Lemma wf_shrinks c c' : shrinks c c' -> pulls_wf c -> pulls_wf c'.
Proof.
  intros (Hm & Hl & Hg) (H1 & H2 & H3). unfold pulls_wf. rewrite Hl, Hg.
  split; [| split].
  - intros tok a Ha. eapply H1, lookup_weaken; done.
  - done.
  - intros tok a g tk Ha. eapply H3, lookup_weaken; done.
Qed.

Lemma wf_stream tok c : pulls_wf c -> pulls_wf (stream tok c).
Proof.
  intros (H1 & H2 & H3). unfold pulls_wf, stream. simpl.
  assert (forall g tk a, (generators c ++ [(tok, Fresh)]) !! g = Some (tk, AtYield a) ->
            generators c !! g = Some (tk, AtYield a)) as Hold.
  { intros g tk a Hg. apply lookup_app_Some in Hg as [Hg | [_ Hg]]; [done |].
    by destruct (g - length (generators c)) as [|[|?]]. }
  split; [done |]. split; eauto.
Qed.

Lemma wf_finish g tok c :
  pulls_wf c -> pulls_wf (set_generators c (<[g := (tok, Finished)]> (generators c))).
Proof.
  intros (H1 & H2 & H3). unfold pulls_wf. simpl.
  assert (forall g' tk a, <[g := (tok, Finished)]> (generators c) !! g' = Some (tk, AtYield a) ->
            generators c !! g' = Some (tk, AtYield a)) as Hold.
  { intros g' tk a Hg. destruct (decide (g = g')) as [<- | Hne].
    - apply list_lookup_insert_Some in Hg as [(_ & [=] & _) | [? _]]; done.
    - by rewrite list_lookup_insert_ne in Hg. }
  split; [done |]. split; eauto.
Qed.

Lemma wf_arm g tok c : pulls_wf c -> pulls_wf (arm g tok c).
Proof.
  intros (H1 & H2 & H3). unfold pulls_wf, arm, fresh_delegate. simpl.
  rewrite length_app. simpl.
  assert (forall g' tk a,
            <[g := (tok, AtYield (length (delegates c)))]> (generators c) !! g'
              = Some (tk, AtYield a) ->
            (tk = tok /\ a = length (delegates c)) \/
            generators c !! g' = Some (tk, AtYield a)) as Hgen.
  { intros g' tk a Hg. destruct (decide (g = g')) as [<- | Hne].
    - apply list_lookup_insert_Some in Hg as [(_ & [= -> ->] & _) | [? _]];
        [by left | done].
    - right. by rewrite list_lookup_insert_ne in Hg. }
  split; [| split].
  - intros tok' a. rewrite lookup_insert. case_decide.
    + intros [= <-]. lia.
    + intros Ha. apply H1 in Ha. lia.
  - intros g' tk a Hg. apply Hgen in Hg as [[_ ->] | Hg]; [lia |].
    apply H2 in Hg. lia.
  - intros tok' a g' tk. rewrite lookup_insert. case_decide as Ht.
    + intros [= <-] Hg. apply Hgen in Hg as [[-> _] | Hg]; [done |].
      apply H2 in Hg. lia.
    + intros Ha Hg. apply Hgen in Hg as [[_ ->] | Hg].
      * apply H1 in Ha. lia.
      * by eapply H3.
Qed.

Lemma wf_step c e : pulls_wf c -> pulls_wf (step c e).
Proof.
  intros Hc. destruct e as [data | settings | request | tok | g]; simpl.
  - by eapply wf_shrinks; [apply shrinks_receive |].
  - eapply wf_shrinks; [apply shrinks_pulls, pulls_configure | done].
  - unfold fetch. destruct (_ready c !! _) as [[|waiters]|]; simpl; try done.
    eapply wf_shrinks; [apply (shrinks_resumes [_]) | done].
  - by apply wf_stream.
  - unfold next. repeat case_match; try done;
      by (apply wf_arm || apply wf_finish).
Qed.

Lemma wf_run events : pulls_wf (run initial events).
Proof.
  assert (forall c, pulls_wf c -> pulls_wf (run c events)) as H.
  { induction events as [|e events IH]; intros c Hc; [done |].
    simpl. by apply IH, wf_step. }
  apply H. unfold pulls_wf. simpl. repeat split; intros *; by rewrite ?lookup_empty.
Qed.

(** A pending pull whose delegate is out of the map stays pending. *)
Lemma unheld_pull_stays_pending (events : list Event) (c : State) (g : nat)
    (tok : string) (d : nat) :
  generators c !! g = Some (tok, AtYield d) ->
  delegates c !! d = Some Pending ->
  unheld d (held c) ->
  observe (run c events) g = Some PullPending.
Proof.
  revert c. induction events as [|e events IH]; intros c Hg Hd Hu.
  - by eapply observe_pending.
  - simpl. destruct (touch_unheld _ _ d (step_touch c e) Hu) as [Hu' E].
    apply IH; [by eapply generator_waits | | done].
    simpl in E. by rewrite E.
Qed.

(** X12. Only the latest stream of a token is served.  If a second
    generator of [stream] for the same token is pulled while the pull of
    a first one is pending, the second takes over the entry of the token,
    and the first pull stays pending for ever: it gets neither the later
    values nor the rejection of an interruption. *)
Theorem latest_stream_takes_over (events later : list Event) (g1 g2 : nat)
    (tok : string) (d : nat) :
  let c := run initial events in
  generators c !! g1 = Some (tok, AtYield d) ->
  delegates c !! d = Some Pending ->
  generators c !! g2 = Some (tok, Fresh) ->
  observe (run (step c (CallNext g2)) later) g1 = Some PullPending.
Proof.
  intros c Hg1 Hd Hg2.
  pose proof (wf_run events) as (H1 & H2 & H3). fold c in H1, H2, H3.
  assert (d < length (delegates c)) as Hlt by by eapply lookup_lt_Some.
  assert (g1 <> g2) as Hne by (intros ->; congruence).
  change (step c (CallNext g2)) with (next g2 c).
  rewrite (next_fresh g2 tok c Hg2).
  apply (unheld_pull_stays_pending later _ g1 tok d).
  - unfold arm. simpl. by rewrite list_lookup_insert_ne.
  - unfold arm. simpl. by apply lookup_app_l_Some.
  - split; simpl.
    + rewrite length_app. lia.
    + intros tok' a. unfold fresh_delegate. rewrite lookup_insert. case_decide.
      * intros [= <-]. lia.
      * intros Ha ->. by destruct (H3 _ _ _ _ Ha Hg1).
Qed.

Lemma latest_stream_takes_over_witness :
  let events := [ Receive (Initiate Scenario.llama); Receive (Ready Scenario.llama);
                  CallFetch Scenario.markdown;
                  CallStream "T1"; CallNext 0; CallStream "T1" ] in
  observe
    (run (step (run initial events) (CallNext 1))
       [ Receive (Update "T1" " for"); Receive (Interrupted ["T1"; "T2"] None) ]) 0
  = Some PullPending.
Proof.
  intros events. apply (latest_stream_takes_over events _ 0 1 "T1" 0); reflexivity.
Defined.

(** *** Witnesses for the facts on readiness *)


Lemma fetches_all_return_witness :
  let c' := run Scenario.ready_provider
              (map CallFetch [Scenario.markdown; Scenario.markdown; Scenario.markdown]) in
  length (returned c') = length (returned Scenario.ready_provider) + 3 /\
  _currentGeneration c' = _currentGeneration Scenario.ready_provider + 3.
Proof.
  apply (fetches_all_return [Scenario.markdown; Scenario.markdown; Scenario.markdown]).
  intros r Hr.
  repeat (apply elem_of_cons in Hr as [-> | Hr]; [reflexivity |]).
  by apply elem_of_nil in Hr.
Defined.

End ProviderMore.

(** ** More on the worker *)

Module WorkerMore.
Import Worker WorkerViews WorkerShapes WorkerFacts.

(** *** The registry *)

Lemma registry_generate_resume data h w :
  _completionModels (generate_resume data h w) = _completionModels w /\
  models (generate_resume data h w) = models w.
Proof. unfold generate_resume. by destruct (superseded data w). Qed.

Lemma registry_attach h r w :
  _completionModels (attach h r w) = _completionModels w /\
  length (models (attach h r w)) = length (models w).
Proof.
  unfold attach. destruct (handleOf w h) as [[name [rs| |e]]|]; simpl; try done.
  - by rewrite length_alter.
  - destruct r; simpl; try done.
    destruct (registry_generate_resume data h w) as [-> ->]. done.
  - by destruct r.
Qed.

Lemma posted_attach_dispose h w : posted (attach h ResumeDispose w) = posted w.
Proof.
  unfold attach. by destruct (handleOf w h) as [[name [rs| |e]]|].
Qed.

(** X13. Disposing a model twice is disposing it once: the second
    [disposeModel] finds no entry and does nothing.  In particular
    disposing a model that was never initialized changes nothing. *)
Theorem dispose_idempotent (name : string) (w : State) :
  _disposeModel name (_disposeModel name w) = _disposeModel name w /\
  (_completionModels w !! name = None -> _disposeModel name w = w).
Proof.
  split.
  - unfold _disposeModel at 1.
    assert (_completionModels (_disposeModel name w) !! name = None) as ->; [| done].
    unfold _disposeModel. destruct (_completionModels w !! name) as [h|] eqn:E; [| done].
    destruct (registry_attach h ResumeDispose
                (set_completionModels w (delete name (_completionModels w)))) as [-> _].
    apply lookup_delete_eq.
  - intros H. unfold _disposeModel. by rewrite H.
Qed.

(** X14. [disposeModel] followed by [initializeModel] for the same name
    always starts a new load, whatever the state of the model before: a new
    handle is registered, [CreateEngine] is called and one [initiate] is
    posted, and nothing else is posted. *)
Theorem dispose_then_initialize_reloads (name : string) (w : State) :
  let w' := run w [ Message (DisposeModel name); Message (InitializeModel name) ] in
  posted w' = posted w ++ [Initiate name] /\
  last (engine w') = Some (CreateEngine name) /\
  _completionModels w' !! name = Some (length (models w)) /\
  handleOf w' (length (models w)) =
    Some {| model := name; _instance := Loading [PostDone; PostException] |}.
Proof.
  intros w'. subst w'.
  change (run w [Message (DisposeModel name); Message (InitializeModel name)])
    with (handleMessage (InitializeModel name) (_disposeModel name w)).
  set (w1 := _disposeModel name w).
  assert (_completionModels w1 !! name = None /\ posted w1 = posted w /\
          length (models w1) = length (models w)) as (Hreg & Hp & Hl).
  { subst w1. unfold _disposeModel.
    destruct (_completionModels w !! name) as [h|] eqn:E; [| done].
    destruct (registry_attach h ResumeDispose
                (set_completionModels w (delete name (_completionModels w)))) as [-> ->].
    rewrite posted_attach_dispose. split; [apply lookup_delete_eq | done]. }
  clearbody w1. simpl. unfold _initializeModel. rewrite Hreg.
  unfold attach, handleOf. simpl.
  rewrite lookup_app_r, Nat.sub_diag by done. simpl.
  unfold set_instance, handleOf. simpl.
  rewrite Hp, <- Hl. split; [done |]. split; [by rewrite last_snoc |].
  split; [apply lookup_insert_eq |].
  rewrite list_lookup_alter, decide_True by done.
  by rewrite lookup_app_r, Nat.sub_diag.
Qed.

(** X15. A failed load is not retried.  Once the load of a registered
    model has failed, a further [initializeModel] for it calls nothing in
    web-llm and registers nothing: it just posts one more [exception]
    (without tokens) with the text of the old failure. *)
Theorem failed_load_is_not_retried (name : string) (h : nat) (e : Thrown) (w : State) :
  _completionModels w !! name = Some h ->
  handleOf w h = Some {| model := name; _instance := Failed e |} ->
  let w' := step w (Message (InitializeModel name)) in
  posted w' = posted w ++ [Exception None (Some (describe e))] /\
  engine w' = engine w /\
  models w' = models w /\
  _completionModels w' = _completionModels w.
Proof.
  intros Hreg Hh. simpl. unfold _initializeModel. rewrite Hreg.
  unfold attach. by rewrite Hh.
Qed.

Lemma failed_load_is_not_retried_witness :
  let w' := step Examples.failed_worker (Message (InitializeModel Scenario.llama)) in
  posted w' = posted Examples.failed_worker ++
                [Exception None (Some "WebGPU is not supported")] /\
  engine w' = engine Examples.failed_worker /\
  models w' = models Examples.failed_worker /\
  _completionModels w' = _completionModels Examples.failed_worker.
Proof.
  apply (failed_load_is_not_retried Scenario.llama 0 no_webgpu); reflexivity.
Defined.

Lemma catches_replicate (k : nat) : catches (replicate k PostException) = k.
Proof. induction k as [|k IH]; [done |]. simpl. by rewrite IH. Qed.

(** X16. When the load of a model fails, every [initializeModel] message
    that asked for it gets its own [exception]: after [S n] such messages
    and the failure, the worker has posted one [initiate], then [S n]
    identical [exception] messages without tokens, and no [done]. *)
Theorem load_failure_reaches_every_caller (name : string) (n : nat) (e : Thrown) :
  let w := run initial
             (replicate (S n) (Message (InitializeModel name)) ++
              [LoadSettled 0 (Some e)]) in
  posted w = [WorkerStarted; Initiate name] ++
             replicate (S n) (Exception None (Some (describe e))) /\
  engine w = [CreateEngine name].
Proof.
  intros w. subst w. unfold run. rewrite fold_left_app.
  change (fold_left step (replicate (S n) (Message (InitializeModel name))) initial)
    with (run initial (replicate (S n) (Message (InitializeModel name)))).
  rewrite run_initializeModel.
  change (fold_left step [LoadSettled 0 (Some e)] (initialized name n))
    with (fold_left (fun w r => react_failed e r w)
            (PostDone :: replicate (S n) PostException)
            (set_instance 0 (Failed e) (initialized name n))).
  destruct (failed_reactions e (PostDone :: replicate (S n) PostException)
              (set_instance 0 (Failed e) (initialized name n))) as (-> & _ & ->).
  split; [| done].
  change (catches (PostDone :: replicate (S n) PostException))
    with (catches (replicate (S n) PostException)).
  by rewrite catches_replicate.
Qed.

(** *** The end of [_generate] *)

Lemma finish_fields (t : nat) (data : IGenerate) (output : list string) (w : State) :
  posted (finish t data output w) = posted w /\
  engine (finish t data output w) = engine w /\
  tasks (finish t data output w) = <[t := Over]> (tasks w) /\
  console (finish t data output w) =
    console w ++
    match output with
    | [] => []
    | _ :: _ => [UnhandledRejection
                   "Cannot read properties of undefined (reading 'substring')"]
    end.
Proof.
  unfold finish. destruct output as [|o rest]; simpl.
  - by rewrite app_nil_r.
  - done.
Qed.

(** X17. When the stream of a generation ends normally, the worker posts
    nothing more and the task is over; with no candidate the call ends
    quietly, with at least one it ends in a rejection that nobody
    handles. *)
Theorem stream_end_is_silent (w : State) (t : nat) (data : IGenerate) (h : nat)
    (output : list string) :
  tasks w !! t = Some (Streaming data h output) ->
  let w' := step w (StreamEnd t) in
  posted w' = posted w /\
  tasks w' !! t = Some Over /\
  (output = [] -> console w' = console w) /\
  (output <> [] -> exists line, console w' = console w ++ [UnhandledRejection line]).
Proof.
  intros Ht w'. subst w'. simpl. rewrite Ht.
  destruct (finish_fields t data output w) as (-> & _ & -> & ->).
  split; [done |]. split.
  { apply list_lookup_insert_eq. by eapply lookup_lt_Some. }
  split; intros Ho.
  - subst output. by rewrite app_nil_r.
  - destruct output; [done | eauto].
Qed.

Lemma stream_end_is_silent_witness :
  let w' := step Scenario.streaming (StreamEnd 0) in
  posted w' = posted Scenario.streaming /\
  tasks w' !! 0 = Some Over /\
  ([""; ""] = [] -> console w' = console Scenario.streaming) /\
  ([""; ""] <> [] ->
     exists line, console w' = console Scenario.streaming ++ [UnhandledRejection line]).
Proof.
  apply (stream_end_is_silent Scenario.streaming 0 Scenario.request 0 [""; ""]).
  reflexivity.
Defined.

(** *** Chunks *)

Lemma superseded_false (data : IGenerate) (w : State) :
  cell w = Z.of_nat (g_counter data) -> superseded data w = false.
Proof. intros H. unfold superseded. rewrite H. by rewrite Z.eqb_refl. Qed.

Lemma superseded_true (data : IGenerate) (w : State) :
  cell w <> Z.of_nat (g_counter data) -> superseded data w = true.
Proof.
  intros H. unfold superseded. by destruct (Z.eqb_spec (cell w) (Z.of_nat (g_counter data))).
Qed.

(** X18. A chunk that has a choice for every candidate, for a request
    that is still current: the worker posts one [update] per candidate, in
    the order of the tokens, each with what its candidate has accumulated
    cut at the length of the prompt; the accumulated outputs grow by the
    deltas of the chunk (an empty or missing delta adds nothing), and the
    task goes on streaming. *)
Theorem chunk_posts_one_update_per_candidate (w : State) (t : nat) (data : IGenerate)
    (h : nat) (output : list string) (choices : list (option string)) :
  tasks w !! t = Some (Streaming data h output) ->
  cell w = Z.of_nat (g_counter data) ->
  length (g_idTokens data) <= length choices ->
  exists output',
    let w' := step w (Chunk t choices) in
    tasks w' !! t = Some (Streaming data h output') /\
    posted w' = posted w ++ map (updateOf data output') (seq 0 (length (g_idTokens data))) /\
    length output' = length output /\
    (forall j, j < length (g_idTokens data) ->
       output' !! j = grow (default None (choices !! j)) <$> output !! j) /\
    engine w' = engine w.
Proof.
  intros Ht Hcell Hlen. simpl. rewrite Ht. unfold on_chunk.
  rewrite (superseded_false data w Hcell).
  destruct (fan_out_updates data choices (length (g_idTokens data)) 0 output
              (print (ConsoleLogChunk choices) w))
    as (w1 & output' & -> & Hp & Ho & Hts & _ & He); [done |].
  exists output'. simpl.
  split. { apply list_lookup_insert_eq. rewrite Hts. by eapply lookup_lt_Some. }
  split; [exact Hp |]. split; [| split; [| exact He]].
  - apply Nat.le_antisymm.
    + destruct (decide (length output' <= length output)) as [|Hn]; [done |].
      assert (is_Some (output' !! length output)) as [x Hx]
        by (apply lookup_lt_is_Some; lia).
      rewrite Ho in Hx. rewrite (lookup_ge_None_2 output (length output)) in Hx by done.
      by case_decide.
    + destruct (decide (length output <= length output')) as [|Hn]; [done |].
      assert (is_Some (output !! length output')) as [x Hx]
        by (apply lookup_lt_is_Some; lia).
      pose proof (Ho (length output')) as Hy.
      rewrite (lookup_ge_None_2 output' (length output')), Hx in Hy by done.
      by case_decide.
  - intros j Hj. rewrite Ho. by rewrite decide_True by lia.
Qed.

Lemma chunk_posts_one_update_per_candidate_witness :
  exists output',
    let w' := step Scenario.streaming (Chunk 0 [Some "# Plan: ship"; None]) in
    tasks w' !! 0 = Some (Streaming Scenario.request 0 output') /\
    posted w' = posted Scenario.streaming ++
                  map (updateOf Scenario.request output') (seq 0 2) /\
    length output' = 2 /\
    (forall j, j < 2 ->
       output' !! j = grow (default None ([Some "# Plan: ship"; None] !! j)) <$>
                        [""; ""] !! j) /\
    engine w' = engine Scenario.streaming.
Proof.
  apply (chunk_posts_one_update_per_candidate Scenario.streaming 0 Scenario.request 0
           [""; ""] [Some "# Plan: ship"; None]).
  - reflexivity.
  - reflexivity.
  - simpl. lia.
Defined.

(** X19. A chunk that arrives after the shared cell has moved away from
    the epoch of the request interrupts the generation: the worker calls
    [interruptGenerate], posts one [interrupted] message with all the
    tokens of the request and no [update] for the chunk, and the task is
    over. *)
Theorem stale_chunk_interrupts (w : State) (t : nat) (data : IGenerate) (h : nat)
    (output : list string) (choices : list (option string)) :
  tasks w !! t = Some (Streaming data h output) ->
  cell w <> Z.of_nat (g_counter data) ->
  let w' := step w (Chunk t choices) in
  posted w' = posted w ++ [Interrupted (g_idTokens data) (Some "Execution interrupted")] /\
  engine w' = engine w ++ [InterruptGenerate h] /\
  tasks w' !! t = Some Over.
Proof.
  intros Ht Hcell w'. subst w'. simpl. rewrite Ht. unfold on_chunk.
  rewrite (superseded_true data w Hcell).
  destruct (finish_fields t data output
              (on_catch data (Some interruption) (call (InterruptGenerate h) w)))
    as (-> & -> & -> & _).
  unfold on_catch. rewrite decide_True by done. simpl.
  split; [done |]. split; [done |].
  apply list_lookup_insert_eq. by eapply lookup_lt_Some.
Qed.

Lemma stale_chunk_interrupts_witness :
  let w := step Scenario.streaming (Store 2) in
  let w' := step w (Chunk 0 [Some "# Plan: ship"; Some "# Plan B"]) in
  posted w' = posted w ++ [Interrupted ["T1"; "T2"] (Some "Execution interrupted")] /\
  engine w' = engine w ++ [InterruptGenerate 0] /\
  tasks w' !! 0 = Some Over.
Proof.
  intros w.
  apply (stale_chunk_interrupts w 0 Scenario.request 0 [""; ""]); [reflexivity |].
  simpl. lia.
Defined.

(** Later turns of the loop over the candidates leave the outputs of
    the earlier candidates alone. *)
Lemma fan_out_keeps_earlier (data : IGenerate) (choices : list (option string))
    (r k : nat) (out : list string) (w : State) (i : nat) :
  i < k -> (fan_out data choices r k out w).1.2 !! i = out !! i.
Proof.
  revert k out w. induction r as [|r IH]; intros k out w Hlt; [done |].
  simpl. destruct (choices !! k) as [content|]; [| done].
  rewrite IH by lia. by rewrite list_lookup_alter_ne by lia.
Qed.

(** The loop over the candidates when the chunk has too few choices: the
    candidates that have a choice get their [update], then the loop stops
    with a [TypeError]. *)
Lemma fan_out_short (data : IGenerate) (choices : list (option string))
    (r i : nat) (output : list string) (w : State) :
  i <= length choices < i + r ->
  exists w' output',
    fan_out data choices r i output w =
      (w', output', Some (Js.CannotReadProperties "undefined" "delta")) /\
    posted w' = posted w ++ map (updateOf data output') (seq i (length choices - i)) /\
    tasks w' = tasks w /\ engine w' = engine w.
Proof.
  revert i output w. induction r as [|r IH]; intros i output w Hlen; [lia |].
  simpl. destruct (choices !! i) as [content|] eqn:Ec.
  - assert (i < length choices) as Hi by by eapply lookup_lt_Some.
    set (output1 := alter (grow content) i output).
    set (w1 := postMessage _ w).
    pose proof (fan_out_keeps_earlier data choices r (S i) output1 w1 i) as Hkeep.
    destruct (IH (S i) output1 w1) as (w' & output' & E & Hp & Ht & He); [lia |].
    rewrite E in Hkeep. simpl in Hkeep.
    exists w', output'. split; [exact E |]. split; [| done].
    rewrite Hp. subst w1. simpl. rewrite <- app_assoc. simpl.
    replace (length choices - i) with (S (length choices - S i)) by lia.
    simpl. do 2 f_equal. unfold updateOf, at_index. by rewrite Hkeep by lia.
  - apply lookup_ge_None in Ec. assert (i = length choices) as -> by lia.
    exists w, output. rewrite Nat.sub_diag. simpl. by rewrite app_nil_r.
Qed.

(** X20. A chunk with fewer choices than candidates, for a request that
    is still current: the candidates that have a choice get their
    [update]; reading the first missing choice throws, which the worker
    reports as an [exception] with the tokens of the request; the task is
    over. *)
Theorem short_chunk_is_an_exception (w : State) (t : nat) (data : IGenerate)
    (h : nat) (output : list string) (choices : list (option string)) :
  tasks w !! t = Some (Streaming data h output) ->
  cell w = Z.of_nat (g_counter data) ->
  length choices < length (g_idTokens data) ->
  exists output',
    let w' := step w (Chunk t choices) in
    posted w' =
      posted w ++ map (updateOf data output') (seq 0 (length choices)) ++
      [Exception (Some (g_idTokens data))
         (Some "Cannot read properties of undefined (reading 'delta')")] /\
    tasks w' !! t = Some Over /\
    engine w' = engine w.
Proof.
  intros Ht Hcell Hlen. simpl. rewrite Ht. unfold on_chunk.
  rewrite (superseded_false data w Hcell).
  destruct (fan_out_short data choices (length (g_idTokens data)) 0 output
              (print (ConsoleLogChunk choices) w))
    as (w1 & output' & -> & Hp & Hts & He); [lia |].
  exists output'. rewrite Nat.sub_0_r in Hp.
  destruct (finish_fields t data output'
              (on_catch data
                 (Some (Js.type_error_message (Js.CannotReadProperties "undefined" "delta")))
                 w1)) as (-> & -> & -> & _).
  unfold on_catch. rewrite decide_False by done. simpl.
  rewrite Hp, He, <- app_assoc. split; [done |]. split; [| done].
  apply list_lookup_insert_eq. rewrite Hts. by eapply lookup_lt_Some.
Qed.

Lemma short_chunk_is_an_exception_witness :
  exists output',
    let w' := step Scenario.streaming (Chunk 0 [Some "# Plan: ship"]) in
    posted w' =
      posted Scenario.streaming ++
      map (updateOf Scenario.request output') (seq 0 1) ++
      [Exception (Some ["T1"; "T2"])
         (Some "Cannot read properties of undefined (reading 'delta')")] /\
    tasks w' !! 0 = Some Over /\
    engine w' = engine Scenario.streaming.
Proof.
  apply (short_chunk_is_an_exception Scenario.streaming 0 Scenario.request 0
           [""; ""] [Some "# Plan: ship"]).
  - reflexivity.
  - reflexivity.
  - simpl. lia.
Defined.



(** *** Before the buffer is bound *)

Lemma unbound_post msg w : no_output msg -> unbound w -> unbound (postMessage msg w).
Proof.
  intros Hm (H1 & H2 & H3 & H4 & H5). repeat split; try done.
  apply Forall_app. split; [done | by constructor].
Qed.

Lemma unbound_call c w : no_chat c -> unbound w -> unbound (call c w).
Proof.
  intros Hc (H1 & H2 & H3 & H4 & H5). repeat split; try done.
  apply Forall_app. split; [done | by constructor].
Qed.

Lemma unbound_print l w : unbound w -> unbound (print l w).
Proof. by intros (H1 & H2 & H3 & H4 & H5). Qed.

Lemma unbound_set_instance h i w :
  match i with Loading rs => Forall no_generate rs | _ => True end ->
  unbound w -> unbound (set_instance h i w).
Proof.
  intros Hi (H1 & H2 & H3 & H4 & H5). repeat split; try done.
  simpl. apply Forall_alter; [done |]. intros m _ _. exact Hi.
Qed.

Lemma unbound_react_loaded h name r w :
  no_generate r -> unbound w -> unbound (react_loaded h name r w).
Proof.
  intros Hr Hw. destruct r; simpl; try done.
  - by apply unbound_post.
  - apply unbound_call; [done |]. by apply unbound_call.
Qed.

Lemma unbound_react_failed e r w : unbound w -> unbound (react_failed e r w).
Proof.
  intros Hw. destruct r; simpl;
    by (apply unbound_print || apply unbound_post).
Qed.

Lemma unbound_handle w h m : unbound w -> handleOf w h = Some m -> calm m.
Proof.
  intros (_ & _ & H3 & _) Hm. rewrite Forall_lookup in H3. by eapply H3.
Qed.

Lemma unbound_attach h r w : no_generate r -> unbound w -> unbound (attach h r w).
Proof.
  intros Hr Hw. unfold attach.
  destruct (handleOf w h) as [[name [rs| |e]]|] eqn:E; simpl; try done.
  - apply unbound_set_instance; [| done].
    apply Forall_app. split; [| by constructor].
    exact (unbound_handle w h _ Hw E).
  - by apply unbound_react_loaded.
  - by apply unbound_react_failed.
Qed.

Lemma unbound_initializeModel name w : unbound w -> unbound (_initializeModel name w).1.
Proof.
  intros Hw. unfold _initializeModel.
  destruct (_completionModels w !! name); [done |]. simpl.
  assert (unbound (call (CreateEngine name) (postMessage (Initiate name) w)))
    as (H1 & H2 & H3 & H4 & H5) by by apply unbound_call, unbound_post.
  repeat split; try done. simpl.
  apply Forall_app. split; [done |]. repeat constructor.
Qed.

Lemma unbound_step w e :
  e <> Message InitializeBuffer -> unbound w -> unbound (step w e).
Proof.
  intros He Hw.
  assert (forall t, tasks w !! t = None) as Hnone.
  { intros t. destruct Hw as (_ & -> & _). done. }
  destruct e as [m | v | h report | h failure | t failure | t choices | t | t e];
    simpl; rewrite ?Hnone; try done.
  - destruct m as [| | name | name | data |]; simpl; try done.
    + pose proof (unbound_initializeModel name w Hw) as H.
      destruct (_initializeModel name w) as [w1 h]. by apply unbound_attach.
    + unfold _disposeModel. destruct (_completionModels w !! name); [| done].
      apply unbound_attach; [done |].
      destruct Hw as (H1 & H2 & H3 & H4 & H5). by repeat split.
    + unfold _generate. destruct Hw as (H1 & H2 & H3 & H4 & H5). rewrite H1.
      by repeat split.
  - unfold on_progress. destruct (handleOf w h); [| done].
    by apply unbound_post, unbound_print.
  - unfold on_settled. destruct (handleOf w h) as [[name [rs| |e]]|] eqn:E; try done.
    pose proof (unbound_handle w h _ Hw E) as Hrs. unfold calm in Hrs. simpl in Hrs.
    destruct failure as [e|]; simpl.
    + assert (unbound (set_instance h (Failed e) w)) as Hw'
        by by apply unbound_set_instance.
      revert Hw'. generalize (set_instance h (Failed e) w). clear.
      induction rs as [|r rs IH]; intros w Hw; [done |].
      simpl. by apply IH, unbound_react_failed.
    + assert (unbound (set_instance h Loaded w)) as Hw'
        by by apply unbound_set_instance.
      revert Hw'. generalize (set_instance h Loaded w). clear -Hrs.
      induction Hrs as [|r rs Hr Hrs IH]; intros w Hw; [done |].
      simpl. by apply IH, unbound_react_loaded.
Qed.

(** X22. Until an [initializeBuffer] message has been handled, the worker
    generates nothing: whatever else it receives, [generate] requests
    included, and whatever web-llm does, it starts no task, never calls
    [chat.completions.create] or [interruptGenerate], and posts no
    [update], [complete], [interrupted] or [exception] with tokens. *)
Theorem no_generation_before_buffer (events : list Event) :
  Forall (fun e => e <> Message InitializeBuffer) events ->
  let w := run initial events in
  tasks w = [] /\ Forall no_chat (engine w) /\ Forall no_output (posted w).
Proof.
  intros Hev w.
  assert (unbound w) as (_ & H2 & _ & H4 & H5); [| done].
  subst w.
  assert (unbound initial) as Hi by (repeat split; repeat constructor).
  revert Hi. generalize initial.
  induction Hev as [|e events He Hev IH]; intros w Hw; [done |].
  simpl. by apply IH, unbound_step.
Qed.

Lemma no_generation_before_buffer_witness :
  let w := run initial [ Message (InitializeModel Scenario.llama);
                         Message (Generate Scenario.request);
                         Store 1;
                         LoadSettled 0 None;
                         Chunk 0 [Some "x"; Some "y"] ] in
  tasks w = [] /\ Forall no_chat (engine w) /\ Forall no_output (posted w).
Proof.
  apply no_generation_before_buffer. repeat constructor; discriminate.
Defined.

(** *** Requests that are out of date, models that go away *)

(** X23. A [generate] request for a loaded model whose epoch is not the
    one in the shared cell is dropped before anything starts: no message
    is posted, web-llm is not called, no task is made; only the console
    says so. *)
Theorem superseded_request_is_skipped (w : State) (data : IGenerate) (h : nat) :
  _sharedArray w = true ->
  _completionModels w !! g_model data = Some h ->
  handleOf w h = Some {| model := g_model data; _instance := Loaded |} ->
  cell w <> Z.of_nat (g_counter data) ->
  let w' := step w (Message (Generate data)) in
  posted w' = posted w /\ engine w' = engine w /\ tasks w' = tasks w /\
  console w' =
    console w ++ [ConsoleLog "Skipping generation because new request was sent since"].
Proof.
  intros Hb Hreg Hh Hcell. simpl. unfold _generate. rewrite Hb.
  unfold _initializeModel. rewrite Hreg. unfold attach. rewrite Hh. simpl.
  unfold generate_resume. by rewrite (superseded_true data w Hcell).
Qed.

Lemma superseded_request_is_skipped_witness :
  let w := step Examples.loaded_worker (Store 2) in
  let w' := step w (Message (Generate Scenario.request)) in
  posted w' = posted w /\ engine w' = engine w /\ tasks w' = tasks w /\
  console w' =
    console w ++ [ConsoleLog "Skipping generation because new request was sent since"].
Proof.
  intros w.
  apply (superseded_request_is_skipped w Scenario.request 0); try reflexivity.
  simpl. lia.
Defined.

Lemma loaded_reactions_app h name rs rs' w :
  fold_left (fun w r => react_loaded h name r w) (rs ++ rs') w =
  fold_left (fun w r => react_loaded h name r w) rs'
    (fold_left (fun w r => react_loaded h name r w) rs w).
Proof. apply fold_left_app. Qed.

(** X24. Disposing a model whose load is still running removes it from
    the registry at once but calls nothing in web-llm yet; when the load
    ends, the engine is reset and unloaded after everything else that was
    waiting for the load has run. *)
Theorem dispose_waits_for_the_load (w : State) (name : string) (h : nat)
    (rs : list Reaction) :
  _completionModels w !! name = Some h ->
  handleOf w h = Some {| model := name; _instance := Loading rs |} ->
  let w1 := step w (Message (DisposeModel name)) in
  let w2 := step w1 (LoadSettled h None) in
  _completionModels w1 !! name = None /\
  engine w1 = engine w /\ posted w1 = posted w /\
  exists calls, engine w2 = engine w ++ calls ++ [ResetChat h; Unload h].
Proof.
  intros Hreg Hh w1 w2.
  assert (w1 = set_instance h (Loading (rs ++ [ResumeDispose]))
                 (set_completionModels w (delete name (_completionModels w)))) as E1.
  { subst w1. simpl. unfold _disposeModel. rewrite Hreg. unfold attach.
    change (handleOf (set_completionModels w _) h) with (handleOf w h).
    by rewrite Hh. }
  split; [rewrite E1; apply lookup_delete_eq |].
  split; [by rewrite E1 |]. split; [by rewrite E1 |].
  subst w2. simpl. unfold on_settled.
  assert (handleOf w1 h =
            Some {| model := name; _instance := Loading (rs ++ [ResumeDispose]) |}) as ->.
  { rewrite E1.
    exact (handleOf_set_instance h _ (set_completionModels w _) _ Hh). }
  simpl. rewrite loaded_reactions_app. simpl.
  set (w' := fold_left _ rs _).
  assert (exists calls, engine w' = engine w ++ calls) as [calls Hc].
  { subst w'. rewrite E1.
    assert (forall w0, exists calls,
              engine (fold_left (fun w r => react_loaded h name r w) rs w0)
                = engine w0 ++ calls) as Hfold.
    { clear. induction rs as [|r rs IH]; intros w0; simpl.
      - exists []. by rewrite app_nil_r.
      - destruct (IH (react_loaded h name r w0)) as [calls ->].
        destruct r; simpl; try (by exists calls).
        + unfold generate_resume. destruct (superseded data w0); simpl;
            [by exists calls |].
          eexists (_ :: calls). by rewrite <- app_assoc.
        + eexists (_ :: _ :: calls). by rewrite <- !app_assoc. }
    match goal with |- exists calls, engine (fold_left _ rs ?w0) = _ =>
      destruct (Hfold w0) as [calls Hc] end.
    exists calls. exact Hc. }
  exists calls. rewrite Hc. by rewrite <- !app_assoc.
Qed.

Lemma dispose_waits_for_the_load_witness :
  let w := step Scenario.bound_worker (Message (InitializeModel Scenario.llama)) in
  let w1 := step w (Message (DisposeModel Scenario.llama)) in
  let w2 := step w1 (LoadSettled 0 None) in
  _completionModels w1 !! Scenario.llama = None /\
  engine w1 = engine w /\ posted w1 = posted w /\
  exists calls, engine w2 = engine w ++ calls ++ [ResetChat 0; Unload 0].
Proof.
  intros w.
  apply (dispose_waits_for_the_load w Scenario.llama 0 [PostDone; PostException]);
    reflexivity.
Defined.

End WorkerMore.

(** ** More on the provider: notifications *)

Module NotificationFacts.
Import Provider ProviderViews ProviderShapes ProviderFacts.

Lemma silent_refl c : silent c c.
Proof. split; [done |]. exists []. by rewrite app_nil_r. Qed.

Lemma silent_trans c1 c2 c3 : silent c1 c2 -> silent c2 c3 -> silent c1 c3.
Proof.
  intros (E1 & es1 & U1 & H1) (E2 & es2 & U2 & H2). split; [congruence |].
  exists (es1 ++ es2). rewrite U2, U1, app_assoc. split; [done |].
  by apply Forall_app.
Qed.

Lemma silent_notes c c' : notes c' = notes c -> silent c c'.
Proof. unfold notes. intros [= E1 E2]. split; [done |]. exists []. by rewrite app_nil_r. Qed.

Lemma silent_log e c : (forall m, emits_for m e = false) -> silent c (log e c).
Proof. intros He. split; [done |]. exists [e]. split; [done |]. by constructor. Qed.

Lemma notes_switchModel m ty c : notes (_switchModel m ty c) = notes c.
Proof.
  unfold _switchModel. case_decide; [done |].
  destruct ty, (currentModel c _) as [old|]; try destruct (truthy old);
    case_decide; reflexivity.
Qed.

Lemma notes_configure_resume c : notes (configure_resume c) = notes c.
Proof. unfold configure_resume. by rewrite !notes_switchModel. Qed.

Lemma notes_msgWorkerStarted c : notes (_msgWorkerStarted c) = notes c.
Proof.
  unfold _msgWorkerStarted. destruct (_workerStarted c) as [|n]; [done |].
  induction n as [|n IH]; [done |]. simpl. by rewrite notes_configure_resume.
Qed.

Lemma notes_msgInterrupted l c : notes (_msgInterrupted l c) = notes c.
Proof.
  unfold _msgInterrupted. revert c.
  induction l as [|tok l IH]; intros c; simpl; [done |].
  rewrite IH. unfold interrupt_one. by case_match.
Qed.

Lemma notes_resumes ks c : notes (resumes ks c) = notes c.
Proof.
  revert c. induction ks as [|k ks IH]; intros c; simpl; [done |].
  rewrite IH. unfold fetch_resume. cbn -[mint Js.ToInt32]. rewrite mint_eq.
  reflexivity.
Qed.

Lemma notes_next g c : notes (next g c) = notes c.
Proof. unfold next. by repeat case_match. Qed.

(** Every turn of the loop other than the handling of [initiate] is
    silent. *)
Lemma step_silent c e :
  (forall m, e <> Receive (Initiate m)) -> silent c (step c e).
Proof.
  intros He. destruct e as [data | settings | request | tok | g]; simpl.
  - destruct data; simpl; try (apply silent_notes; reflexivity);
      try (by apply silent_log).
    + apply silent_notes, notes_msgWorkerStarted.
    + by destruct (He model).
    + unfold _msgReady. cbn.
      destruct (_ready c !! model) as [[|waiters]|].
      * by apply silent_log.
      * eapply silent_trans; [| apply silent_notes, (notes_resumes waiters)].
        apply (silent_trans _
                 (log (NotificationDismiss (_loadingNotifications c !! model)) c));
          [by apply silent_log |].
        apply silent_notes. reflexivity.
      * apply (silent_trans _
                 (log (NotificationDismiss (_loadingNotifications c !! model)) c));
          by apply silent_log.
    + unfold _msgUpdate. cbn -[Js.ToInt32]. case_match.
      * apply silent_notes. reflexivity.
      * by apply (silent_log _ (_tickWorker c)).
    + unfold _msgComplete. case_match.
      * apply silent_notes. reflexivity.
      * apply (silent_trans _ (log (ConsoleWarn "Completion done but stream absent") c));
          [by apply silent_log |].
        apply silent_notes. reflexivity.
    + apply silent_notes, notes_msgInterrupted.
    + apply (silent_trans _ (log (NotificationError (workerErrorText error)) c));
        by apply silent_log.
  - apply silent_notes. unfold configure. simpl.
    destruct (_workerStarted c); [| done]. by rewrite notes_configure_resume.
  - unfold fetch. destruct (_ready c !! _) as [[|waiters]|];
      try (apply silent_notes; reflexivity).
    apply silent_notes, (notes_resumes [_]).
  - apply silent_notes. reflexivity.
  - apply silent_notes, notes_next.
Qed.

Lemma emitted_app (m : string) (c c' : State) (es : list Effect) :
  ui c' = ui c ++ es ->
  emitted m c' = emitted m c + length (filter (fun e => emits_for m e = true) es).
Proof. intros E. unfold emitted. by rewrite E, filter_app, length_app. Qed.

Lemma notes_inv_silent c c' : silent c c' -> notes_inv c -> notes_inv c'.
Proof.
  intros (E & es & U & Hes) Hc m. rewrite (emitted_app m c c' es U), E, Hc.
  assert (filter (fun e => emits_for m e = true) es = []) as ->; [| simpl; lia].
  clear -Hes. induction Hes as [|e es He Hes IH]; [done |].
  rewrite filter_cons, decide_False; [done |]. by rewrite He.
Qed.

Lemma notes_inv_initiate model c : notes_inv c -> notes_inv (_msgInitiate model c).
Proof.
  intros Hc m. unfold _msgInitiate.
  change (_loadingNotifications (set_ready c _)) with (_loadingNotifications c).
  destruct (_loadingNotifications c !! model) as [id|] eqn:E.
  - rewrite (emitted_app m c _ [NotificationUpdate (Some id) (Loading model)]) by done.
    simpl. rewrite Nat.add_0_r. apply Hc.
  - rewrite (emitted_app m c _ [NotificationEmit (length (ui c)) (Loading model)]) by done.
    simpl. rewrite lookup_insert, Hc. rewrite filter_cons, filter_nil. simpl.
    destruct (String.eqb_spec m model) as [-> | Hne].
    + rewrite decide_True, decide_True, E by done. done.
    + rewrite decide_False, decide_False by (done || congruence). simpl. lia.
Qed.

(** X25. However often a model is (re)loaded, the provider emits one
    loading notification for it and afterwards only updates that one:
    along every run, each model with an entry in [_loadingNotifications]
    has exactly one emitted notification, and the others have none. *)
Theorem one_notification_per_model (events : list Event) (m : string) :
  emitted m (run initial events) =
    match _loadingNotifications (run initial events) !! m with
    | Some _ => 1
    | None => 0
    end.
Proof.
  assert (forall c, notes_inv c -> notes_inv (run c events)) as H.
  { induction events as [|e events IH]; intros c Hc; [done |].
    simpl. apply IH.
    assert ((exists model, e = Receive (Initiate model)) \/
            (forall model, e <> Receive (Initiate model))) as [[model ->] | He].
    { destruct e as [[]| | | |]; try (right; discriminate). left. eauto. }
    - by apply notes_inv_initiate.
    - by eapply notes_inv_silent; [apply step_silent |]. }
  apply H. intros m'. unfold emitted. simpl. by rewrite lookup_empty.
Qed.

End NotificationFacts.

(** ** More on provider and worker together *)

Module ProtocolMore.
Import ProviderViews ProviderFacts.

Lemma ToInt32_below (z : Z) : (Js.ToInt32 z < 2 ^ 31)%Z.
Proof.
  unfold Js.ToInt32.
  pose proof (Z.mod_pos_bound (z + 2 ^ 31) (2 ^ 32)). lia.
Qed.

(** X26. The shared cell is a 32-bit integer, the epoch in the messages
    is not.  When the cell holds what the provider stored for the epoch
    of a request, the worker takes that request as current exactly when the
    epoch is below 2^31; from 2^31 on every request is taken as
    superseded. *)
Theorem epoch_check_holds_below_2_31 (c : Provider.State) (data : IGenerate)
    (w : Worker.State) :
  Worker.cell w = Provider._sharedArray (Provider._tickWorker c) ->
  g_counter data = Provider._currentGeneration c ->
  Worker.superseded data w = false <-> (Z.of_nat (Provider._currentGeneration c) < 2 ^ 31)%Z.
Proof.
  intros Hcell Hcounter. unfold Worker.superseded. rewrite Hcell, Hcounter. simpl.
  set (z := Z.of_nat (Provider._currentGeneration c)).
  rewrite negb_false_iff, Z.eqb_eq. split.
  - intros <-. apply ToInt32_below.
  - intros Hz. apply JsFacts.ToInt32_small. lia.
Qed.

Lemma epoch_check_holds_below_2_31_witness :
  let c := Provider.run Scenario.ready_provider [ Provider.CallFetch Scenario.markdown ] in
  let w := Worker.step Scenario.bound_worker (Worker.Store (Provider._sharedArray c)) in
  Worker.superseded Scenario.request w = false <->
  (Z.of_nat (Provider._currentGeneration c) < 2 ^ 31)%Z.
Proof.
  intros c w.
  apply (epoch_check_holds_below_2_31 c Scenario.request w); vm_compute; reflexivity.
Defined.

(** X27. From the editor to the engine: for a [fetch] on a ready model,
    the request that the worker builds from the posted message asks
    web-llm for as many candidates as placeholders were returned to the
    editor, streams, and has the prefix of the editor request as its user
    message. *)
Theorem fetch_asks_for_one_candidate_per_placeholder (c : Provider.State)
    (request : Provider.IRequest) :
  Provider._ready c !! Provider.selectedModel c request = Some Provider.ReadyResolved ->
  exists c' items d,
    Provider.fetch request c = (c', Provider.Returned items) /\
    last (Provider.posted c') = Some (Generate d) /\
    Worker.n (Worker.requestOf d) = length items /\
    Worker.stream (Worker.requestOf d) = true /\
    last (Worker.messages (Worker.requestOf d)) =
      Some (Worker.user, Provider._prefixFromRequest c request).
Proof.
  intros Hready.
  destruct (ProviderMore.fetch_on_ready c request Hready)
    as (c' & ids & d & E & Hl & Hp & Hi & _ & _ & Ht & _).
  exists c', (map Provider.placeholder ids), d.
  split; [done |]. split; [by rewrite Hp, last_snoc |].
  simpl. rewrite Hi, length_map, Ht. done.
Qed.

Lemma fetch_asks_for_one_candidate_per_placeholder_witness :
  exists c' items d,
    Provider.fetch Scenario.markdown Scenario.ready_provider = (c', Provider.Returned items) /\
    last (Provider.posted c') = Some (Generate d) /\
    Worker.n (Worker.requestOf d) = length items /\
    Worker.stream (Worker.requestOf d) = true /\
    last (Worker.messages (Worker.requestOf d)) = Some (Worker.user, "# Plan").
Proof.
  apply (fetch_asks_for_one_candidate_per_placeholder
           Scenario.ready_provider Scenario.markdown).
  reflexivity.
Defined.

End ProtocolMore.
